(** * Verification of the code-generation agent of vercel-sdk-ai-agent

    Shallow embedding of the TypeScript tools of the agent:
    - [create_schema] (src/unnamed/part_000, db-tools) and
      [create_multiple_schemas] (src/src/utils/agent.ts), the two
      Drizzle schema generators;
    - [analyze_request], the trigger-phrase entity segmenter;
    - [edit_file] (src/src/agent/tools/file-tools.ts) with the
      JavaScript semantics of [String.prototype.replace];
    - the GET handler emitted by [create_api_endpoint]
      (src/src/agent/tools/api-tools.ts);
    - the type and hook names derived by the generators;
    - the step loop of [databaseAgent] (src/src/agent/core.ts),
      [generateText] with [stopWhen: stepCountIs(15)].

    Strings are Stdlib [string]s (ASCII).  JavaScript string methods are
    written out below for ASCII text. *)

From Stdlib Require Import String Ascii List Bool Arith Lia ZArith.
Import ListNotations.
Open Scope string_scope.

(* ================================================================= *)
(** ** JavaScript string helpers *)

Module JS.

(** Characters that cannot be written inside a Rocq string literal
    conveniently. *)
Definition nl : string := String (ascii_of_nat 10) EmptyString.
Definition dq : string := String (ascii_of_nat 34) EmptyString.

(** [String.prototype.toUpperCase] / [toLowerCase] on one ASCII char. *)
Definition char_upper (c : ascii) : ascii :=
  let n := nat_of_ascii c in
  if Nat.leb 97 n && Nat.leb n 122 then ascii_of_nat (n - 32) else c.

Definition char_lower (c : ascii) : ascii :=
  let n := nat_of_ascii c in
  if Nat.leb 65 n && Nat.leb n 90 then ascii_of_nat (n + 32) else c.

Fixpoint toLowerCase (s : string) : string :=
  match s with
  | EmptyString => EmptyString
  | String c r => String (char_lower c) (toLowerCase r)
  end.

(** [s.charAt(0).toUpperCase() + s.slice(1)]: [charAt(0)] of the empty
    string is the empty string. *)
Definition capitalize (s : string) : string :=
  match s with
  | EmptyString => EmptyString
  | String c r => String (char_upper c) r
  end.

(** [s.includes(sub)]. *)
Definition includes (s sub : string) : bool :=
  match index 0 sub s with Some _ => true | None => false end.

(** [arr.join(sep)]: the empty array joins to the empty string. *)
Definition join (sep : string) (l : list string) : string := String.concat sep l.

(** [s.split(c)] for a one-character separator: always at least one
    piece, empty pieces kept. *)
Fixpoint split (c : ascii) (s : string) : list string :=
  match s with
  | EmptyString => [EmptyString]
  | String d r =>
      let pieces := split c r in
      if Ascii.eqb d c then EmptyString :: pieces
      else match pieces with
           | p :: ps => String d p :: ps
           | [] => [String d EmptyString]
           end
  end.

End JS.

Import JS.

(* ================================================================= *)
(** ** Field descriptions and the two schema generators *)

Module Schema.

(** [{ name: z.string(), type: z.string(),
       constraints: z.array(z.string()).optional() }] *)
Record field := mkField {
  name : string;
  type : string;
  constraints : option (list string)
}.

(** Column builder of [create_schema] (part_000, lines 40-60). *)
Definition column_single (ty : string) : string :=
  if (ty =? "string") || (ty =? "varchar") then "varchar(255)"
  else if ty =? "text" then "text()"
  else if (ty =? "number") || (ty =? "integer") then "integer()"
  else if ty =? "boolean" then "boolean()"
  else if ty =? "timestamp" then "timestamp()"
  else "text()".

(** Constraint switch of [create_schema] (lines 63-75). *)
Definition constraint_single (c : string) : string :=
  if c =? "notNull" then ".notNull()"
  else if c =? "primaryKey" then ".primaryKey()"
  else if c =? "unique" then ".unique()"
  else EmptyString.

(** One entry of [fieldDefinitions] in [create_schema]. *)
Definition field_def_single (f : field) : string :=
  "  " ++ name f ++ ": " ++ column_single (type f)
  ++ match constraints f with
     | Some cs => String.concat EmptyString (map constraint_single cs)
     | None => EmptyString
     end
  ++ ",".

Definition fieldDefinitions_single (fields : list field) : string :=
  join nl (map field_def_single fields).

Definition imports_single : string :=
  "import { pgTable, serial, text, timestamp, varchar, integer, boolean } from 'drizzle-orm/pg-core';".

(** [schemaContent] of [create_schema] (lines 82-97). *)
Definition schema_content (tableName : string) (fields : list field) : string :=
  imports_single ++ nl ++ nl
  ++ "export const " ++ tableName ++ " = pgTable('" ++ tableName ++ "', {" ++ nl
  ++ "  id: serial('id').primaryKey()," ++ nl
  ++ fieldDefinitions_single fields ++ nl
  ++ "  createdAt: timestamp('created_at').defaultNow().notNull()," ++ nl
  ++ "  updatedAt: timestamp('updated_at').defaultNow().notNull()," ++ nl
  ++ "});" ++ nl ++ nl
  ++ "export type " ++ capitalize tableName ++ " = typeof " ++ tableName
  ++ ".$inferSelect;" ++ nl
  ++ "export type New" ++ capitalize tableName ++ " = typeof " ++ tableName
  ++ ".$inferInsert;" ++ nl.

(** Column builder of [create_multiple_schemas] (agent.ts, 477-495). *)
Definition column_multi (ty : string) : string :=
  if ty =? "varchar" then "varchar(255)"
  else if ty =? "text" then "text()"
  else if ty =? "integer" then "integer()"
  else if ty =? "boolean" then "boolean()"
  else if ty =? "timestamp" then "timestamp()"
  else "text()".

(** The two [if]s of [create_multiple_schemas] (lines 498-502). *)
Definition constraint_multi (c : string) : string :=
  (if c =? "notNull" then ".notNull()" else EmptyString)
  ++ (if c =? "primaryKey" then ".primaryKey()" else EmptyString).

Definition field_def_multi (f : field) : string :=
  "  " ++ name f ++ ": " ++ column_multi (type f)
  ++ match constraints f with
     | Some cs => String.concat EmptyString (map constraint_multi cs)
     | None => EmptyString
     end
  ++ ",".

Definition fieldDefinitions_multi (fields : list field) : string :=
  join nl (map field_def_multi fields).

(** [schemaContent] of [create_multiple_schemas] (lines 513-529). *)
Definition schema_content_multi (tableName : string) (fields : list field) : string :=
  let capitalizedName := capitalize tableName in
  "import { pgTable, serial, text, timestamp, varchar, integer, boolean } from "
  ++ dq ++ "drizzle-orm/pg-core" ++ dq ++ ";" ++ nl
  ++ "import { createInsertSchema, createSelectSchema } from "
  ++ dq ++ "drizzle-zod" ++ dq ++ ";" ++ nl ++ nl
  ++ "export const " ++ tableName ++ " = pgTable(" ++ dq ++ tableName ++ dq ++ ", {" ++ nl
  ++ "  id: serial(" ++ dq ++ "id" ++ dq ++ ").primaryKey()," ++ nl
  ++ fieldDefinitions_multi fields ++ nl
  ++ "  createdAt: timestamp(" ++ dq ++ "created_at" ++ dq ++ ").defaultNow().notNull()," ++ nl
  ++ "  updatedAt: timestamp(" ++ dq ++ "updated_at" ++ dq ++ ").defaultNow().notNull()," ++ nl
  ++ "});" ++ nl ++ nl
  ++ "// Zod schemas for validation" ++ nl
  ++ "export const insert" ++ capitalizedName ++ "Schema = createInsertSchema(" ++ tableName ++ ");" ++ nl
  ++ "export const select" ++ capitalizedName ++ "Schema = createSelectSchema(" ++ tableName ++ ");" ++ nl ++ nl
  ++ "export type Insert" ++ capitalizedName ++ " = typeof " ++ tableName ++ ".$inferInsert;" ++ nl
  ++ "export type Select" ++ capitalizedName ++ " = typeof " ++ tableName ++ ".$inferSelect;" ++ nl.

End Schema.

Import Schema.

Example schema_content_small :
  fieldDefinitions_single [mkField "title" "varchar" (Some ["notNull"; "unique"])]
  = "  title: varchar(255).notNull().unique(),".
Proof. reflexivity. Qed.

(* ================================================================= *)
(** ** The file system seen by the tools *)

Module FS.

(** Contents of the regular files, and for each path the error message
    [fs.writeFileSync] (with the [mkdirSync] before it) raises there,
    if any.  A file is looked up by the path text the tool is given:
    two spellings of one file ([a.ts], [./a.ts]) are not identified, so
    the properties below only read back a path under the spelling it
    was written with. *)
Record fsys := mkFs {
  file_at : string -> option string;
  write_error : string -> option string
}.

Definition write (fs : fsys) (p c : string) : fsys :=
  mkFs (fun q => if q =? p then Some c else file_at fs q) (write_error fs).

Definition empty : fsys := mkFs (fun _ => None) (fun _ => None).

End FS.

Import FS.

(* ================================================================= *)
(** ** [create_schema.execute] (part_000, lines 29-122) *)

Module CreateSchema.

Inductive result :=
| Ok (tableName path : string) (fieldsCreated : nat)
| Err (error tableName : string).

(** Writes [schema_content] to [`${schemaPath}/${tableName}.ts`]; the only
    failure is the one raised by the file system, caught and returned. *)
Definition execute (fs : fsys) (tableName : string) (fields : list field)
    (schemaPath : string) : fsys * result :=
  let content := schema_content tableName fields in
  let filePath := schemaPath ++ "/" ++ tableName ++ ".ts" in
  match write_error fs filePath with
  | Some e => (fs, Err e tableName)
  | None => (write fs filePath content, Ok tableName filePath (List.length fields))
  end.

End CreateSchema.

(* ================================================================= *)
(** ** [analyze_request.execute] (part_000, lines 252-331) *)

Module Segmenter.

Record entity := mkEntity {
  ename : string;
  edescription : string;
  efields : list field
}.

Definition nn : option (list string) := Some ["notNull"].

Definition made_for_you : entity :=
  mkEntity "made_for_you_playlists" "Personalized playlists curated for the user"
    [mkField "title" "varchar" nn; mkField "description" "text" None;
     mkField "imageUrl" "varchar" None; mkField "playlistType" "varchar" None;
     mkField "trackCount" "integer" None].

Definition popular_albums : entity :=
  mkEntity "popular_albums" "Popular albums trending or featured"
    [mkField "title" "varchar" nn; mkField "artist" "varchar" nn;
     mkField "imageUrl" "varchar" None; mkField "releaseYear" "integer" None;
     mkField "genre" "varchar" None; mkField "popularity" "integer" None].

Definition recently_played : entity :=
  mkEntity "recently_played_songs" "Songs recently played by the user"
    [mkField "title" "varchar" nn; mkField "artist" "varchar" nn;
     mkField "album" "varchar" None; mkField "duration" "integer" None;
     mkField "playedAt" "timestamp" nn].

Definition albums : entity :=
  mkEntity "albums" "General album information"
    [mkField "title" "varchar" nn; mkField "artist" "varchar" nn;
     mkField "imageUrl" "varchar" None; mkField "category" "varchar" None].

(** The three [if] conditions on the lower-cased request. *)
Definition trigger_made_for_you (request : string) : bool :=
  includes request "made for you".
Definition trigger_popular_albums (request : string) : bool :=
  includes request "popular albums" || includes request "popular album".
Definition trigger_recently_played (request : string) : bool :=
  includes request "recently played" || includes request "recent".

(** [entities] after the sequence of [if]s, fallback included. *)
Definition analyze_request (userRequest : string) : list entity :=
  let request := toLowerCase userRequest in
  let e1 := if trigger_made_for_you request then [made_for_you] else [] in
  let e2 := app e1 (if trigger_popular_albums request then [popular_albums] else []) in
  let e3 := app e2 (if trigger_recently_played request then [recently_played] else []) in
  if (includes request "album" && Nat.eqb (List.length e3) 0)
     || (includes request "albums" && Nat.eqb (List.length e3) 0)
  then app e3 [albums] else e3.

(** Number of rules of the trigger table that fire on a request. *)
Definition matched_triggers (userRequest : string) : nat :=
  let request := toLowerCase userRequest in
  (if trigger_made_for_you request then 1 else 0)
  + (if trigger_popular_albums request then 1 else 0)
  + (if trigger_recently_played request then 1 else 0).

End Segmenter.

Import Segmenter.

Example analyze_two :
  map ename (analyze_request "Can you store the 'Made for you' and 'Popular albums' in a table")
  = ["made_for_you_playlists"; "popular_albums"].
Proof. vm_compute. reflexivity. Qed.

(* ================================================================= *)
(** ** [edit_file.execute] (file-tools.ts, lines 71-94) *)

Module EditFile.

(** GetSubstitution of [String.prototype.replace] for a string pattern
    (no capture groups): [$$], [$&], [$`] and [$'] are expanded, any
    other [$] is kept. *)
Fixpoint get_substitution (matched before after : string) (r : string) : string :=
  match r with
  | EmptyString => EmptyString
  | String c r' =>
      if Ascii.eqb c "$"%char then
        match r' with
        | String d r'' =>
            if Ascii.eqb d "$"%char then "$" ++ get_substitution matched before after r''
            else if Ascii.eqb d "&"%char then matched ++ get_substitution matched before after r''
            else if Ascii.eqb d "`"%char then before ++ get_substitution matched before after r''
            else if Ascii.eqb d "'"%char then after ++ get_substitution matched before after r''
            else String c (get_substitution matched before after r')
        | EmptyString => String c EmptyString
        end
      else String c (get_substitution matched before after r')
  end.

(** [s.replace(pattern, replacement)] with a string pattern: only the
    first occurrence is replaced; no occurrence leaves [s] as it is. *)
Definition js_replace (s pattern replacement : string) : string :=
  match index 0 pattern s with
  | None => s
  | Some p =>
      let before := substring 0 p s in
      let after := substring (p + String.length pattern) (String.length s) s in
      before ++ get_substitution pattern before after replacement ++ after
  end.

Inductive result :=
| Edited (path : string)       (* { path, success: true, action: "edit" } *)
| Created (path : string)      (* { path, success: true, action: "create" } *)
| Failed (error : string).     (* { error: e, success: false } *)

Definition success (r : result) : bool :=
  match r with Failed _ => false | _ => true end.

(** The model records the regular files only.  In the create branch the
    tool runs [mkdirSync(dir, { recursive: true })] before
    [writeFileSync]; the directory it may make is not recorded, and
    [write_error] is the error of that pair, so a failure leaves every
    file as it was (a directory made before a failing write stays). *)
Definition execute (fs : fsys) (path : string) (old_str : option string)
    (new_str : string) : fsys * result :=
  match file_at fs path, old_str with
  | Some fileContents, Some o =>
      let newContents := js_replace fileContents o new_str in
      match write_error fs path with
      | Some e => (fs, Failed e)
      | None => (write fs path newContents, Edited path)
      end
  | _, _ =>
      match write_error fs path with
      | Some e => (fs, Failed e)
      | None => (write fs path new_str, Created path)
      end
  end.

End EditFile.

Example js_replace_first :
  EditFile.js_replace "a-b-a" "a" "c" = "c-b-a".
Proof. reflexivity. Qed.

(* ================================================================= *)
(** ** The GET handler emitted by [create_api_endpoint]
       (api-tools.ts, lines 33-50) *)

Module Endpoint.

#[local] Set Warnings "-register-all".

Inductive json :=
| JNull
| JNum (n : Z)
| JStr (s : string)
| JBool (b : bool)
| JObj (kv : list (string * json))
| JArr (l : list json).

(** A record of the table: its [serial] primary key and its JSON shape. *)
Record row := mkRow { row_id : Z; row_json : json }.

(** [NextResponse.json(body, init)]; without [init] the status is 200. *)
Record response := mkResp { status : Z; body : json }.

(** JavaScript [parseInt] (no radix): leading white space skipped, an
    optional sign, a [0x] prefix selecting base 16, then the longest run
    of digits; [None] is [NaN]. *)
Definition is_ws (c : ascii) : bool :=
  let n := nat_of_ascii c in
  Nat.eqb n 32 || (Nat.leb 9 n && Nat.leb n 13).

Fixpoint skip_ws (s : string) : string :=
  match s with
  | String c r => if is_ws c then skip_ws r else s
  | EmptyString => EmptyString
  end.

Definition digit_val (c : ascii) : option Z :=
  let n := nat_of_ascii c in
  if Nat.leb 48 n && Nat.leb n 57 then Some (Z.of_nat (n - 48))
  else if Nat.leb 97 n && Nat.leb n 102 then Some (Z.of_nat (n - 87))
  else if Nat.leb 65 n && Nat.leb n 70 then Some (Z.of_nat (n - 55))
  else None.

Fixpoint digits (radix : Z) (acc : option Z) (s : string) : option Z :=
  match s with
  | EmptyString => acc
  | String c r =>
      match digit_val c with
      | Some d =>
          if (d <? radix)%Z
          then digits radix (Some (match acc with Some a => a | None => 0 end * radix + d)%Z) r
          else acc
      | None => acc
      end
  end.

Definition parse_unsigned (s : string) : option Z :=
  match s with
  | String "0"%char (String x r) =>
      if Ascii.eqb x "x"%char || Ascii.eqb x "X"%char then digits 16 None r
      else digits 10 None s
  | _ => digits 10 None s
  end.

Definition parseInt (s : string) : option Z :=
  match skip_ws s with
  | String "-"%char r => option_map Z.opp (parse_unsigned r)
  | String "+"%char r => parse_unsigned r
  | s' => parse_unsigned s'
  end.

Definition error_body (msg : string) : json := JObj [("error", JStr msg)].

(** The [id] column is a [serial], a 32-bit [integer]; the driver
    ([postgres]) sends a number parameter untyped, so PostgreSQL reads
    it as an [integer] and rejects a value outside that range. *)
Definition int4 (n : Z) : bool := (- 2 ^ 31 <=? n)%Z && (n <=? 2 ^ 31 - 1)%Z.

(** The handler on a table [table] and the value of
    [searchParams.get('id')] ([None] is [null]).  A non-numeric id makes
    [parseInt] return [NaN], which PostgreSQL refuses for an integer
    column, and so is a number out of the column's range: the query
    throws and the [catch] answers 500. *)
Definition GET (table : list row) (id : option string) : response :=
  let list_all := mkResp 200 (JArr (map row_json table)) in
  let failed := mkResp 500 (error_body "Failed to fetch data") in
  match id with
  | Some i =>
      if negb (i =? EmptyString) then
        match parseInt i with
        | Some n =>
            if int4 n then
              let result := filter (fun r => Z.eqb (row_id r) n) table in
              mkResp 200 (match result with r :: _ => row_json r | [] => JNull end)
            else failed
        | None => failed
        end
      else list_all
  | None => list_all
  end.

End Endpoint.

(* ================================================================= *)
(** ** Derived identifiers *)

Module Names.

(** [tableName.charAt(0).toUpperCase() + tableName.slice(1)], the type
    name of [create_schema] (part_000, 91-96) and the [capitalizedName]
    of [create_multiple_schemas] (agent.ts, 510-511). *)
Definition type_name (tableName : string) : string := capitalize tableName.

(** [hookName] of [create_api_client_hook] (api-tools.ts, 233-236). *)
Definition hook_name (endpoint : string) : string :=
  "use" ++ String.concat EmptyString (map capitalize (split "-"%char endpoint)).

(** The spec's PascalCase of a snake_case name and its kebab-case route
    segment (section 4.1), used to state the claims. *)
Definition pascal_case (canonicalName : string) : string :=
  String.concat EmptyString (map capitalize (split "_"%char canonicalName)).

Fixpoint kebab (canonicalName : string) : string :=
  match canonicalName with
  | EmptyString => EmptyString
  | String c r => String (if Ascii.eqb c "_"%char then "-"%char else c) (kebab r)
  end.

End Names.

Example hook_name_ex : Names.hook_name "made-for-you" = "useMadeForYou".
Proof. reflexivity. Qed.

(* ================================================================= *)
(** ** The step loop of [databaseAgent] (core.ts, lines 13-32)

    [generateText({ ..., stopWhen: stepCountIs(15), tools })]: every step
    asks the reasoning engine for a reply given the steps so far; a reply
    with a tool call has the tool executed and its output recorded, and
    the loop goes on unless the number of steps has reached 15; a reply
    with no tool call ends the run.  [databaseAgent] adds nothing to this
    loop: it returns [result.text] and [result.steps]. *)

Module Orchestrator.

Inductive tool_call :=
| CallAnalyzeRequest (userRequest : string)
| CallCreateSchema (tableName : string) (fields : list field)
| CallCreateMultipleSchemas (entities : list entity)
| CallRunMigration (action : string)
| CallOther (toolName : string).

Inductive engine_reply :=
| FinalAnswer (text : string)
| ToolCall (c : tool_call).

(** Tool outputs: the entity list of [analyze_request]; the outputs of
    the other tools are not looked into. *)
Inductive observation :=
| ObsEntities (entities : list entity)
| ObsOther.

Record step := mkStep {
  seq : nat;
  reply : engine_reply;
  output : option observation
}.

Definition execute_tool (c : tool_call) : observation :=
  match c with
  | CallAnalyzeRequest r => ObsEntities (analyze_request r)
  | _ => ObsOther
  end.

Definition step_budget : nat := 15.

Definition is_tool_call (r : engine_reply) : bool :=
  match r with ToolCall _ => true | FinalAnswer _ => false end.

Section Loop.

Variable engine : list step -> engine_reply.

Fixpoint loop (fuel : nat) (steps : list step) : list step :=
  match fuel with
  | O => steps
  | S f =>
      match engine steps with
      | FinalAnswer t =>
          app steps [mkStep (S (List.length steps)) (FinalAnswer t) None]
      | ToolCall c =>
          let steps' := app steps [mkStep (S (List.length steps)) (ToolCall c)
                                          (Some (execute_tool c))] in
          if Nat.eqb (List.length steps') step_budget then steps' else loop f steps'
      end
  end.

Definition generate_text : list step := loop step_budget [].

End Loop.

(** WorkflowState of the spec (section 3), read off the steps of a run:
    the entities discovered by [analyze_request], and whether a schema
    was written for an entity. *)
Definition discovered (steps : list step) : list string :=
  flat_map (fun s => match output s with
                     | Some (ObsEntities es) => map ename es
                     | _ => []
                     end) steps.

Definition schema_written (steps : list step) (n : string) : bool :=
  existsb (fun s => match reply s with
                    | ToolCall (CallCreateSchema t _) => t =? n
                    | ToolCall (CallCreateMultipleSchemas es) =>
                        existsb (fun e => ename e =? n) es
                    | _ => false
                    end) steps.

Definition workflow_incomplete (steps : list step) : bool :=
  existsb (fun n => negb (schema_written steps n)) (discovered steps).

(** The run ended on a final answer of the engine ([Done]). *)
Definition ends_with_final_answer (steps : list step) : bool :=
  match rev steps with
  | s :: _ => negb (is_tool_call (reply s))
  | [] => false
  end.

End Orchestrator.

(* ================================================================= *)
(** ** The object returned by [analyze_request.execute]
       (part_000, lines 322-330) *)

Module AnalyzeRequest.

Record output := mkOutput {
  success : bool;
  entitiesFound : nat;
  entities : list entity;
  recommendation : string
}.

Definition execute (userRequest : string) : output :=
  let es := analyze_request userRequest in
  mkOutput true (List.length es) es
    (if Nat.ltb 1 (List.length es)
     then "Multiple entities detected. Create separate tables for each."
     else "Single entity detected.").

End AnalyzeRequest.

(* ================================================================= *)
(** ** [create_multiple_schemas.execute] (part_000, lines 350-452) *)

Module MultipleSchemas.

(** One element of [results]: [{ tableName, path, success: true,
    description }] or [{ tableName, success: false, error }]. *)
Inductive entry :=
| Created (tableName path description : string)
| Failed (tableName error : string).

Definition entry_success (r : entry) : bool :=
  match r with Created _ _ _ => true | Failed _ _ => false end.

Definition entry_table (r : entry) : string :=
  match r with Created t _ _ => t | Failed t _ => t end.

Definition schema_path (name : string) : string :=
  "src/database/schemas/" ++ name ++ ".ts".

(** The [for ... of] loop: every entity is tried, a failure is caught
    and recorded, and the loop goes on with the next entity. *)
Fixpoint run (fs : fsys) (entities : list entity) : fsys * list entry :=
  match entities with
  | [] => (fs, [])
  | e :: es =>
      let schemaPath := schema_path (ename e) in
      let (fs1, r) :=
        match write_error fs schemaPath with
        | Some err => (fs, Failed (ename e) err)
        | None => (write fs schemaPath (schema_content_multi (ename e) (efields e)),
                   Created (ename e) schemaPath (edescription e))
        end in
      let (fs2, rs) := run fs1 es in
      (fs2, r :: rs)
  end.

Record output := mkOutput {
  success : bool;
  results : list entry;
  totalCreated : nat;
  action : string
}.

Definition execute (fs : fsys) (entities : list entity) : fsys * output :=
  let (fs', results) := run fs entities in
  (fs', mkOutput (forallb entry_success results) results
          (List.length (filter entry_success results)) "create_multiple_schemas").

End MultipleSchemas.

(* ================================================================= *)
(** ** [list_files.execute] (file-tools.ts, lines 18-31; agent.ts,
       lines 47-64) *)

Module ListFiles.

Fixpoint rev_str (s : string) : string :=
  match s with
  | EmptyString => EmptyString
  | String c r => rev_str r ++ String c EmptyString
  end.

(** [String.prototype.trim] on ASCII text. *)
Definition trim (s : string) : string :=
  rev_str (Endpoint.skip_ws (rev_str (Endpoint.skip_ws s))).

Inductive result :=
| Refused (error : string)                    (* { error: "You cannot read the path: ..." } *)
| Listed (path : string) (output : list string) (* { path: targetPath, output } *)
| ListError.                                  (* { error: e } *)

(** [fs.readdirSync(targetPath)] inside the [try]. *)
Definition list_at (readdir : string -> option (list string)) (targetPath : string) : result :=
  match readdir targetPath with
  | Some output => Listed targetPath output
  | None => ListError
  end.

(** [generatedPath?.trim() ? generatedPath : "."] *)
Definition target_path (generatedPath : option string) : string :=
  match generatedPath with
  | Some p => if negb (trim p =? EmptyString) then p else "."
  | None => "."
  end.

Definition execute (readdir : string -> option (list string))
    (generatedPath : option string) : result :=
  match generatedPath with
  | Some p =>
      if (p =? ".git") || (p =? "node_modules")
      then Refused ("You cannot read the path: " ++ p)
      else list_at readdir (target_path generatedPath)
  | None => list_at readdir (target_path generatedPath)
  end.

End ListFiles.

(* ================================================================= *)
(** ** [edit_file.execute] of [codingAgent] (agent.ts, lines 97-121)

    Its parameter [path] shadows the [path] module, so the create branch
    calls [path.dirname] on a string: a [TypeError], caught and returned
    before anything is written. *)

Module EditFileAgent.

Import EditFile.

Definition execute (fs : fsys) (path : string) (old_str : option string)
    (new_str : string) : fsys * result :=
  match file_at fs path, old_str with
  | Some fileContents, Some o =>
      let newContents := js_replace fileContents o new_str in
      match write_error fs path with
      | Some e => (fs, Failed e)
      | None => (write fs path newContents, Edited path)
      end
  | _, _ => (fs, Failed "path.dirname is not a function")
  end.

End EditFileAgent.

(* ================================================================= *)
(** ** The DELETE handler emitted by [create_api_endpoint]
       (api-tools.ts, lines 88-104) *)

Module EndpointDelete.

Import Endpoint.

(** The table after the request, and the response.  As for [GET], a
    [NaN] id makes the query throw and the [catch] answer 500; so does
    an id out of the column's range ([int4]). *)
Definition DELETE (table : list row) (id : option string) : list row * response :=
  let missing := (table, mkResp 400 (error_body "ID is required")) in
  let failed := (table, mkResp 500 (error_body "Failed to delete data")) in
  match id with
  | Some i =>
      if negb (i =? EmptyString) then
        match parseInt i with
        | Some n =>
            if int4 n then
              (filter (fun r => negb (Z.eqb (row_id r) n)) table,
               mkResp 200 (JObj [("success", JBool true)]))
            else failed
        | None => failed
        end
      else missing
  | None => missing
  end.

(** [response.ok]: a status in 200-299. *)
Definition ok (r : response) : bool := (200 <=? status r)%Z && (status r <=? 299)%Z.

(** [`${id}`] for a non-negative integer [id]: its decimal digits.
    [fuel] bounds the number of digits (64 covers every safe integer). *)
Fixpoint dec_aux (fuel : nat) (n : Z) (acc : string) : string :=
  match fuel with
  | O => acc
  | S f =>
      let acc' := String (ascii_of_nat (48 + Z.to_nat (n mod 10))) acc in
      if (n <? 10)%Z then acc' else dec_aux f (n / 10) acc'
  end.

Definition to_decimal (n : Z) : string := dec_aux 64 n EmptyString.

End EndpointDelete.

(* ================================================================= *)
(** ** Client state of the hook emitted by [create_api_client_hook]
       (api-tools.ts, lines 243-327)

    A record of the table is seen by the hook as its [id] and the rest
    of its fields.  A call to the server either answers [response.ok]
    with a body, or fails ([!response.ok], or [fetch] throwing): the
    function then throws, and no [setData] has run. *)

Module ClientHook.

Import Endpoint.

Record item := mkItem { item_id : Z; item_fields : json }.

Record state := mkState {
  data : list item;
  loading : bool;
  error : option string
}.

Definition initial : state := mkState [] true None.

Inductive fetch_outcome :=
| FetchOk (result : list item)
| FetchNotOk
| FetchThrew (message : string).

(** [fetchData]: [setLoading(true)], then [setData(result)] and
    [setError(null)] on success, [setError(...)] on failure, and
    [setLoading(false)] in [finally]. *)
Definition fetchData (st : state) (o : fetch_outcome) : state :=
  match o with
  | FetchOk result => mkState result false None
  | FetchNotOk => mkState (data st) false (Some "Failed to fetch data")
  | FetchThrew m => mkState (data st) false (Some m)
  end.

(** [createItem]: [setData(prev => [...prev, newItem])]. *)
Definition createItem (st : state) (resp : option item) : state * option item :=
  match resp with
  | Some newItem => (mkState (app (data st) [newItem]) (loading st) (error st), Some newItem)
  | None => (st, None)
  end.

(** [updateItem]: [prev.map(item => item.id === id ? updatedItem : item)]. *)
Definition updateItem (st : state) (id : Z) (resp : option item) : state * option item :=
  match resp with
  | Some updatedItem =>
      (mkState (map (fun it => if Z.eqb (item_id it) id then updatedItem else it) (data st))
               (loading st) (error st), Some updatedItem)
  | None => (st, None)
  end.

(** [deleteItem]: [prev.filter(item => item.id !== id)] once the
    response is ok. *)
Definition deleteItem (st : state) (id : Z) (response_ok : bool) : state * bool :=
  if response_ok
  then (mkState (filter (fun it => negb (Z.eqb (item_id it) id)) (data st))
                (loading st) (error st), true)
  else (st, false).

(** How the hook sees a row of the table. *)
Definition item_of_row (r : row) : item := mkItem (row_id r) (row_json r).

End ClientHook.

(* ================================================================= *)
(** ** [integrate_api_with_component.execute] (part_000, lines 560-602) *)

Module Integrate.

Definition is_line_terminator (c : ascii) : bool :=
  Ascii.eqb c (ascii_of_nat 10) || Ascii.eqb c (ascii_of_nat 13).

(** The lines of a text, as the [m] flag sees them: split at every
    line terminator. *)
Fixpoint lines (s : string) : list string :=
  match s with
  | EmptyString => [EmptyString]
  | String d r =>
      let pieces := lines r in
      if is_line_terminator d then EmptyString :: pieces
      else match pieces with
           | p :: ps => String d p :: ps
           | [] => [String d EmptyString]
           end
  end.

Definition is_quote (c : ascii) : bool :=
  Ascii.eqb c "'"%char || Ascii.eqb c (ascii_of_nat 34).

(** Position of the quote (single or double, then an optional [;]) that
    ends an import line. *)
Definition closing_quote (l : string) : option nat :=
  let n := String.length l in
  match get (n - 1) l with
  | Some c =>
      if is_quote c then Some (n - 1)
      else if Ascii.eqb c ";"%char && Nat.leb 2 n then
        match get (n - 2) l with
        | Some q => if is_quote q then Some (n - 2) else None
        | None => None
        end
      else None
  | None => None
  end.

(** A line matched by [importRegex] (line 575): it starts with
    [import], and some [from] after it ends before the closing quote
    (the first [from] is the one that ends earliest). *)
Definition is_import_line (l : string) : bool :=
  prefix "import" l &&
  match index 6 "from" l, closing_quote l with
  | Some k, Some q => Nat.leb (k + 4) q
  | _, _ => false
  end.

Fixpoint last_opt {A : Type} (l : list A) : option A :=
  match l with
  | [] => None
  | [x] => Some x
  | _ :: r => last_opt r
  end.

(** [imports[imports.length - 1]] *)
Definition last_import (content : string) : option string :=
  last_opt (filter is_import_line (lines content)).

Definition hook_import (hookName hookImportPath : string) : string :=
  "import { " ++ hookName ++ " } from '" ++ hookImportPath ++ "';".

(** The new content, when the tool writes one. *)
Definition updated_content (content hookName hookImportPath : string) : option string :=
  match last_import content with
  | Some lastImport =>
      if negb (includes content hookImportPath)
      then Some (EditFile.js_replace content lastImport
                   (lastImport ++ nl ++ hook_import hookName hookImportPath))
      else None
  | None => None
  end.

Inductive result :=
| Integrated (componentPath hookName : string)
| Failed (error : string).

Definition execute (fs : fsys) (componentPath hookName dataProperty hookImportPath : string)
    : fsys * result :=
  match file_at fs componentPath with
  | None => (fs, Failed ("Component file not found: " ++ componentPath))
  | Some componentContent =>
      match updated_content componentContent hookName hookImportPath with
      | Some c =>
          match write_error fs componentPath with
          | Some e => (fs, Failed e)
          | None => (write fs componentPath c, Integrated componentPath hookName)
          end
      | None => (fs, Integrated componentPath hookName)
      end
  end.

End Integrate.

(* ================================================================= *)
(** ** [update_component_types.execute] (part_000, lines 613-656) *)

Module UpdateTypes.

Fixpoint last_index_aux (sub : string) (i : nat) (s : string) : option nat :=
  match s with
  | EmptyString => if prefix sub EmptyString then Some i else None
  | String _ r =>
      match last_index_aux sub (S i) r with
      | Some k => Some k
      | None => if prefix sub s then Some i else None
      end
  end.

(** [s.lastIndexOf(sub)]; [None] is [-1]. *)
Definition lastIndexOf (s sub : string) : option nat := last_index_aux sub 0 s.

(** The new content, when the tool writes one: [importEndIndex] is
    [lastIndexOf("';") + 2], which is 1 when there is no ['];]. *)
Definition updated_content (content typeName typeDefinition : string) : option string :=
  if includes content ("interface " ++ typeName) then None
  else
    let importEndIndex :=
      match lastIndexOf content "';" with Some p => p + 2 | None => 1 end in
    Some (substring 0 importEndIndex content ++ nl ++ nl ++ typeDefinition ++ nl
          ++ substring importEndIndex (String.length content) content).

Inductive result :=
| Updated (componentPath typeName : string)
| AlreadyExists (typeName componentPath : string)
| Failed (error : string).

Definition execute (fs : fsys) (componentPath typeName typeDefinition : string)
    : fsys * result :=
  match file_at fs componentPath with
  | None => (fs, Failed ("Component file not found: " ++ componentPath))
  | Some componentContent =>
      match updated_content componentContent typeName typeDefinition with
      | None => (fs, AlreadyExists typeName componentPath)
      | Some c =>
          match write_error fs componentPath with
          | Some e => (fs, Failed e)
          | None => (write fs componentPath c, Updated componentPath typeName)
          end
      end
  end.

End UpdateTypes.

(* ================================================================= *)
(** ** [analyze_component_data_usage.execute] (part_000, lines 665-707) *)

Module DataUsage.

Record analysis := mkAnalysis {
  hasStaticData : bool;
  hasUseState : bool;
  hasUseEffect : bool;
  hasFetchCalls : bool;
  hasMapFunctions : bool;
  hasProps : bool;
  fileSize : nat;
  linesOfCode : nat
}.

Definition analyze (componentContent : string) : analysis :=
  mkAnalysis
    (includes componentContent "const" && includes componentContent "=")
    (includes componentContent "useState")
    (includes componentContent "useEffect")
    (includes componentContent "fetch")
    (includes componentContent ".map(")
    (includes componentContent "props" || includes componentContent ": {")
    (String.length componentContent)
    (List.length (split (ascii_of_nat 10) componentContent)).

Definition recommendations (a : analysis) : list string :=
  [if hasStaticData a then "Replace static data with API calls"
   else "Component ready for API integration";
   if negb (hasUseState a) then "Consider adding state management for loading/error states"
   else "State management present";
   if negb (hasFetchCalls a) then "Add data fetching logic"
   else "Data fetching already implemented"].

Inductive result :=
| Analyzed (componentPath : string) (a : analysis) (recs : list string)
| Failed (error : string).

Definition execute (fs : fsys) (componentPath : string) : result :=
  match file_at fs componentPath with
  | None => Failed ("Component file not found: " ++ componentPath)
  | Some c => let a := analyze c in Analyzed componentPath a (recommendations a)
  end.

(** Number of occurrences of a character. *)
Fixpoint count_char (c : ascii) (s : string) : nat :=
  match s with
  | EmptyString => 0
  | String d r => (if Ascii.eqb d c then 1 else 0) + count_char c r
  end.

End DataUsage.

(* ================================================================= *)
(** ** Text vocabulary for the properties *)

(** [x] occurs in [s]. *)
Definition contains (s x : string) : Prop := exists a b, s = a ++ x ++ b.

(** The first occurrence of [a] in [s] is before the first one of [b]. *)
Definition occurs_before (a b s : string) : bool :=
  match index 0 a s, index 0 b s with
  | Some i, Some j => Nat.ltb i j
  | _, _ => false
  end.

Definition id_line : string := "  id: serial('id').primaryKey(),".
Definition createdAt_line : string :=
  "  createdAt: timestamp('created_at').defaultNow().notNull(),".
Definition updatedAt_line : string :=
  "  updatedAt: timestamp('updated_at').defaultNow().notNull(),".

Definition id_line_multi : string := "  id: serial(" ++ dq ++ "id" ++ dq ++ ").primaryKey(),".
Definition createdAt_line_multi : string :=
  "  createdAt: timestamp(" ++ dq ++ "created_at" ++ dq ++ ").defaultNow().notNull(),".
Definition updatedAt_line_multi : string :=
  "  updatedAt: timestamp(" ++ dq ++ "updated_at" ++ dq ++ ").defaultNow().notNull(),".

Definition reserved_names : list string := ["id"; "createdAt"; "updatedAt"].

(** The replacement text has no [$], so [String.prototype.replace]
    inserts it verbatim. *)
Fixpoint no_dollar (s : string) : bool :=
  match s with
  | EmptyString => true
  | String c r => negb (Ascii.eqb c "$"%char) && no_dollar r
  end.

(** No [$] of the replacement text starts a pattern of
    [String.prototype.replace] with a string pattern ([$$], [$&], [$`]
    or [$']): such a text is inserted verbatim ([${x}] or [$1] are). *)
Definition pattern_char (d : ascii) : bool :=
  Ascii.eqb d "$"%char || Ascii.eqb d "&"%char || Ascii.eqb d "`"%char
  || Ascii.eqb d "'"%char.

Fixpoint no_dollar_pattern (s : string) : bool :=
  match s with
  | EmptyString => true
  | String c r =>
      (if Ascii.eqb c "$"%char then
         match r with String d _ => negb (pattern_char d) | EmptyString => true end
       else true) && no_dollar_pattern r
  end.

(** A field with every ["unique"] removed from its constraint list. *)
Definition drop_unique (f : field) : field :=
  mkField (name f) (type f)
    (option_map (filter (fun c => negb (c =? "unique"))) (constraints f)).

(** [c] occurs in [s]. *)
Fixpoint has_char (c : ascii) (s : string) : bool :=
  match s with
  | EmptyString => false
  | String d r => Ascii.eqb d c || has_char c r
  end.

(** A reasoning engine that asks for [analyze_request] on a two-entity
    request, then answers with a final text. *)
Definition early_stop_engine (steps : list Orchestrator.step) : Orchestrator.engine_reply :=
  match steps with
  | [] => Orchestrator.ToolCall (Orchestrator.CallAnalyzeRequest
            "Can you store the 'Made for you' and 'Popular albums' in a table")
  | _ => Orchestrator.FinalAnswer "Done."
  end.

(* ================================================================= *)
(** * Lemmas on strings *)

Lemma append_assoc_str (a b c : string) : (a ++ b) ++ c = a ++ b ++ c.
Proof. induction a as [|x a IH]; simpl; [reflexivity | now rewrite IH]. Qed.

Lemma append_empty_r (a : string) : a ++ EmptyString = a.
Proof. induction a as [|x a IH]; simpl; [reflexivity | now rewrite IH]. Qed.

Lemma length_append_str (a b : string) :
  String.length (a ++ b) = String.length a + String.length b.
Proof. induction a as [|x a IH]; simpl; [reflexivity | now rewrite IH]. Qed.

Lemma concat_empty_cons (x : string) (xs : list string) :
  String.concat EmptyString (x :: xs) = x ++ String.concat EmptyString xs.
Proof. destruct xs; simpl; [now rewrite append_empty_r | reflexivity]. Qed.

Lemma join_contains (sep d : string) (l : list string) :
  In d l -> contains (join sep l) d.
Proof.
  unfold join, contains. induction l as [|x l IH]; intros Hin; [destruct Hin|].
  destruct Hin as [<- | Hin].
  - destruct l as [|y l].
    + exists EmptyString, EmptyString. simpl. now rewrite append_empty_r.
    + exists EmptyString, (sep ++ String.concat sep (y :: l)). reflexivity.
  - destruct l as [|y l]; [destruct Hin|].
    destruct (IH Hin) as [a [b Hab]].
    exists (x ++ sep ++ a), b.
    change (String.concat sep (x :: y :: l)) with (x ++ sep ++ String.concat sep (y :: l)).
    rewrite Hab. now rewrite !append_assoc_str.
Qed.

Create Rewrite HintDb str.
#[export] Hint Rewrite append_assoc_str : str.

(* ================================================================= *)
(** * Schema generators: claims C1, C2, C8, C9 *)

(** C1 (refuted): with one user field, the implicit [id] column is
    written before that user field, not after all user fields. *)
Lemma C1_id_before_user_field :
  occurs_before id_line
    (field_def_single (mkField "title" "varchar" (Some ["notNull"])))
    (schema_content "songs" [mkField "title" "varchar" (Some ["notNull"])]) = true.
Proof. vm_compute. reflexivity. Qed.

(** Both generators put the implicit columns around the user field
    definitions, at positions fixed by the table name alone. *)
Lemma schema_content_decomp (tableName : string) :
  exists pre post, forall fields,
    schema_content tableName fields
    = pre ++ id_line ++ nl ++ join nl (map field_def_single fields) ++ nl
      ++ createdAt_line ++ nl ++ updatedAt_line ++ nl ++ post.
Proof.
  eexists (imports_single ++ nl ++ nl ++ "export const " ++ tableName
           ++ " = pgTable('" ++ tableName ++ "', {" ++ nl).
  eexists. intros fields.
  unfold schema_content, fieldDefinitions_single, id_line, createdAt_line, updatedAt_line.
  autorewrite with str. reflexivity.
Qed.

Lemma schema_content_multi_decomp (tableName : string) :
  exists pre post, forall fields,
    schema_content_multi tableName fields
    = pre ++ id_line_multi ++ nl ++ join nl (map field_def_multi fields) ++ nl
      ++ createdAt_line_multi ++ nl ++ updatedAt_line_multi ++ nl ++ post.
Proof.
  eexists ("import { pgTable, serial, text, timestamp, varchar, integer, boolean } from "
           ++ dq ++ "drizzle-orm/pg-core" ++ dq ++ ";" ++ nl
           ++ "import { createInsertSchema, createSelectSchema } from "
           ++ dq ++ "drizzle-zod" ++ dq ++ ";" ++ nl ++ nl
           ++ "export const " ++ tableName ++ " = pgTable(" ++ dq ++ tableName
           ++ dq ++ ", {" ++ nl).
  eexists. intros fields.
  unfold schema_content_multi, fieldDefinitions_multi, id_line_multi,
    createdAt_line_multi, updatedAt_line_multi.
  autorewrite with str. reflexivity.
Qed.

Lemma schema_content_contains_field (tableName : string) (fields : list field) (f : field) :
  In f fields -> contains (schema_content tableName fields) (field_def_single f).
Proof.
  intros Hin.
  destruct (schema_content_decomp tableName) as [pre [post Hd]].
  destruct (join_contains nl _ _ (in_map field_def_single _ _ Hin)) as [a [b Hab]].
  rewrite Hd, Hab.
  exists (pre ++ id_line ++ nl ++ a),
         (b ++ nl ++ createdAt_line ++ nl ++ updatedAt_line ++ nl ++ post).
  now autorewrite with str.
Qed.

Lemma schema_content_contains_id (tableName : string) (fields : list field) :
  contains (schema_content tableName fields) id_line.
Proof.
  destruct (schema_content_decomp tableName) as [pre [post Hd]].
  rewrite Hd. eexists pre, _. reflexivity.
Qed.

(** C1 (amended): for every table name there are a text before and a
    text after, independent of the field list, such that for every field
    list (empty included) both generators emit: the [id] serial primary
    key line, then the user field definitions in order, then the
    [createdAt] and [updatedAt] lines (default now, not null). *)
Theorem C1_schema_layout (tableName : string) :
  (exists pre post, forall fields,
      schema_content tableName fields
      = pre ++ id_line ++ nl ++ join nl (map field_def_single fields) ++ nl
        ++ createdAt_line ++ nl ++ updatedAt_line ++ nl ++ post)
  /\ (exists pre post, forall fields,
      schema_content_multi tableName fields
      = pre ++ id_line_multi ++ nl ++ join nl (map field_def_multi fields) ++ nl
        ++ createdAt_line_multi ++ nl ++ updatedAt_line_multi ++ nl ++ post).
Proof.
  split; [apply schema_content_decomp | apply schema_content_multi_decomp].
Qed.

Lemma write_read (fs : fsys) (p c : string) : file_at (write fs p c) p = Some c.
Proof. simpl. now rewrite String.eqb_refl. Qed.

(** C2 (refuted): a field named [id] is compiled and written, with no
    naming-conflict error. *)
Lemma C2_reserved_name_accepted :
  snd (CreateSchema.execute FS.empty "songs" [mkField "id" "integer" None]
         "src/database/schemas")
  = CreateSchema.Ok "songs" "src/database/schemas/songs.ts" 1.
Proof. reflexivity. Qed.

(** C2 (amended): the Schema Compiler has no reserved-name check.  A
    field named [id], [createdAt] or [updatedAt] is compiled like any
    other: the tool reports success (only a file-system failure is an
    error) and the written schema holds that field's own definition in
    addition to the implicit [id] column. *)
Theorem C2_reserved_field_compiled (fs : fsys) (tableName : string)
    (fields : list field) (schemaPath : string) (f : field)
    (Hin : In f fields) (Hres : In (name f) reserved_names)
    (Hw : write_error fs (schemaPath ++ "/" ++ tableName ++ ".ts") = None) :
  snd (CreateSchema.execute fs tableName fields schemaPath)
    = CreateSchema.Ok tableName (schemaPath ++ "/" ++ tableName ++ ".ts") (List.length fields)
  /\ file_at (fst (CreateSchema.execute fs tableName fields schemaPath))
       (schemaPath ++ "/" ++ tableName ++ ".ts")
     = Some (schema_content tableName fields)
  /\ contains (schema_content tableName fields) (field_def_single f)
  /\ contains (schema_content tableName fields) id_line.
Proof.
  unfold CreateSchema.execute. rewrite Hw. simpl fst; simpl snd.
  split; [reflexivity|]. split; [apply write_read|].
  split; [now apply schema_content_contains_field | apply schema_content_contains_id].
Qed.

Lemma C2_reserved_field_compiled_witness :
  In (mkField "id" "integer" None) [mkField "id" "integer" None]
  /\ In (name (mkField "id" "integer" None)) reserved_names
  /\ write_error FS.empty ("src/database/schemas" ++ "/" ++ "songs" ++ ".ts") = None
  /\ snd (CreateSchema.execute FS.empty "songs" [mkField "id" "integer" None] "src/database/schemas")
     = CreateSchema.Ok "songs" ("src/database/schemas" ++ "/" ++ "songs" ++ ".ts") 1.
Proof.
  assert (Hin : In (mkField "id" "integer" None) [mkField "id" "integer" None]) by (left; reflexivity).
  assert (Hres : In (name (mkField "id" "integer" None)) reserved_names) by (left; reflexivity).
  assert (Hw : write_error FS.empty ("src/database/schemas" ++ "/" ++ "songs" ++ ".ts") = None)
    by reflexivity.
  split; [exact Hin|]. split; [exact Hres|]. split; [exact Hw|].
  exact (proj1 (C2_reserved_field_compiled FS.empty "songs" _ "src/database/schemas" _ Hin Hres Hw)).
Defined.

(** C8: compiling the same table name and field list twice writes the
    same bytes: the second run reports the same result and leaves the
    file as the first run wrote it, and the text written does not depend
    on the state of the file system. *)
Theorem C8_schema_deterministic (fs : fsys) (tableName : string)
    (fields : list field) (schemaPath : string)
    (Hw : write_error fs (schemaPath ++ "/" ++ tableName ++ ".ts") = None) :
  let path := schemaPath ++ "/" ++ tableName ++ ".ts" in
  let run1 := CreateSchema.execute fs tableName fields schemaPath in
  let run2 := CreateSchema.execute (fst run1) tableName fields schemaPath in
  snd run2 = snd run1
  /\ file_at (fst run1) path = Some (schema_content tableName fields)
  /\ file_at (fst run2) path = file_at (fst run1) path
  /\ (forall fs', write_error fs' path = None ->
        file_at (fst (CreateSchema.execute fs' tableName fields schemaPath)) path
        = file_at (fst run1) path).
Proof.
  intros path run1 run2.
  assert (E : forall g, write_error g path = None ->
                CreateSchema.execute g tableName fields schemaPath
                = (write g path (schema_content tableName fields),
                   CreateSchema.Ok tableName path (List.length fields))).
  { intros g Hg. unfold CreateSchema.execute. fold path. now rewrite Hg. }
  assert (H1 : run1 = (write fs path (schema_content tableName fields),
                       CreateSchema.Ok tableName path (List.length fields)))
    by (apply E; exact Hw).
  assert (H2 : run2 = (write (fst run1) path (schema_content tableName fields),
                       CreateSchema.Ok tableName path (List.length fields))).
  { apply E. rewrite H1. exact Hw. }
  rewrite H2, H1. simpl fst; simpl snd.
  split; [reflexivity|]. split; [apply write_read|]. split; [now rewrite !write_read|].
  intros fs' Hw'. rewrite (E fs' Hw'). simpl fst. now rewrite !write_read.
Qed.

Lemma C8_schema_deterministic_witness :
  write_error FS.empty ("src/database/schemas" ++ "/" ++ "songs" ++ ".ts") = None
  /\ file_at (fst (CreateSchema.execute FS.empty "songs" [mkField "title" "varchar" None]
                     "src/database/schemas"))
       ("src/database/schemas" ++ "/" ++ "songs" ++ ".ts")
     = Some (schema_content "songs" [mkField "title" "varchar" None]).
Proof.
  assert (Hw : write_error FS.empty ("src/database/schemas" ++ "/" ++ "songs" ++ ".ts") = None)
    by reflexivity.
  split; [exact Hw|].
  exact (proj1 (proj2 (C8_schema_deterministic FS.empty "songs"
                         [mkField "title" "varchar" None] "src/database/schemas" Hw))).
Defined.

Lemma constraints_multi_drop_unique (cs : list string) :
  String.concat EmptyString (map constraint_multi cs)
  = String.concat EmptyString
      (map constraint_multi (filter (fun c => negb (c =? "unique")) cs)).
Proof.
  induction cs as [|c cs IH]; [reflexivity|].
  simpl filter. rewrite map_cons, concat_empty_cons.
  destruct (String.eqb_spec c "unique") as [->|Hne]; simpl negb; cbv iota.
  - exact IH.
  - rewrite map_cons, concat_empty_cons. now rewrite IH.
Qed.

Lemma column_single_length (ty : string) : 6 <= String.length (column_single ty).
Proof.
  unfold column_single.
  repeat match goal with |- context [if ?b then _ else _] => destruct b end;
    simpl; lia.
Qed.

Lemma column_multi_length (ty : string) : String.length (column_multi ty) <= 12.
Proof.
  unfold column_multi.
  repeat match goal with |- context [if ?b then _ else _] => destruct b end;
    simpl; lia.
Qed.

(** C9: in [create_multiple_schemas] a ["unique"] constraint leaves no
    trace (every field compiles as with its ["unique"]s removed), while
    [create_schema] appends [.unique()] for it; so a field carrying
    ["unique"] compiles to different text on the two paths. *)
Theorem C9_unique_only_in_single_path :
  (forall f, field_def_multi f = field_def_multi (drop_unique f))
  /\ (forall n ty, field_def_single (mkField n ty (Some ["unique"]))
                   = "  " ++ n ++ ": " ++ column_single ty ++ ".unique(),")
  /\ (forall n ty, field_def_multi (mkField n ty (Some ["unique"]))
                   = "  " ++ n ++ ": " ++ column_multi ty ++ ",")
  /\ (forall n ty, field_def_single (mkField n ty (Some ["unique"]))
                   <> field_def_multi (mkField n ty (Some ["unique"]))).
Proof.
  split; [|split; [|split]].
  - intros [n ty [cs|]]; unfold field_def_multi, drop_unique; simpl constraints; [|reflexivity].
    simpl. rewrite <- (constraints_multi_drop_unique cs). reflexivity.
  - intros n ty. reflexivity.
  - intros n ty. reflexivity.
  - intros n ty Heq. apply (f_equal String.length) in Heq.
    unfold field_def_single, field_def_multi in Heq. simpl constraints in Heq.
    change (String.concat EmptyString (map constraint_single ["unique"])) with ".unique()" in Heq.
    change (String.concat EmptyString (map constraint_multi ["unique"])) with EmptyString in Heq.
    rewrite !length_append_str in Heq. simpl in Heq.
    pose proof (column_single_length ty). pose proof (column_multi_length ty). lia.
Qed.

(* ================================================================= *)
(** * Request Segmenter: claim C4 *)

Lemma NoDup_names_ok :
  NoDup ["made_for_you_playlists"; "popular_albums"; "recently_played_songs"]
  /\ NoDup ["made_for_you_playlists"; "popular_albums"]
  /\ NoDup ["made_for_you_playlists"; "recently_played_songs"]
  /\ NoDup ["popular_albums"; "recently_played_songs"].
Proof.
  repeat split; repeat constructor; simpl; intuition discriminate.
Qed.

(** C4: when two or more rules of the trigger table fire on a request
    (made for you; popular album(s); recent(ly played)), [analyze_request]
    returns exactly one entity per rule fired, with pairwise distinct
    names; the generic album fallback is not added. *)
Theorem C4_one_entity_per_trigger (userRequest : string)
    (H : 2 <= matched_triggers userRequest) :
  List.length (analyze_request userRequest) = matched_triggers userRequest
  /\ NoDup (map ename (analyze_request userRequest)).
Proof.
  pose proof NoDup_names_ok as (N3 & N12 & N13 & N23).
  unfold analyze_request, matched_triggers in *.
  set (r := toLowerCase userRequest) in *.
  destruct (trigger_made_for_you r), (trigger_popular_albums r), (trigger_recently_played r);
    simpl in *; try lia; rewrite ?andb_false_r; simpl; auto.
Qed.

Lemma C4_one_entity_per_trigger_witness :
  2 <= matched_triggers "Can you store the 'Made for you' and 'Popular albums' in a table"
  /\ List.length (analyze_request "Can you store the 'Made for you' and 'Popular albums' in a table") = 2.
Proof.
  assert (H : 2 <= matched_triggers "Can you store the 'Made for you' and 'Popular albums' in a table")
    by (vm_compute; lia).
  split; [exact H|].
  rewrite (proj1 (C4_one_entity_per_trigger _ H)). vm_compute. reflexivity.
Defined.

(* ================================================================= *)
(** * edit_file: claim C5 *)

Lemma substring_prefix (a b : string) : substring 0 (String.length a) (a ++ b) = a.
Proof. induction a as [|c a IH]; simpl; [now destruct b | now rewrite IH]. Qed.

Lemma substring_all (m : nat) (b : string) : String.length b <= m -> substring 0 m b = b.
Proof.
  revert m. induction b as [|c b IH]; intros m Hm; [now destruct m|].
  destruct m as [|m]; simpl in *; [lia|]. rewrite IH; [reflexivity|lia].
Qed.

Lemma substring_skip (a b : string) (m : nat) :
  substring (String.length a) m (a ++ b) = substring 0 m b.
Proof. induction a as [|c a IH]; simpl; [reflexivity | exact IH]. Qed.

Lemma substring_suffix (a b c : string) :
  substring (String.length a + String.length b) (String.length (a ++ b ++ c)) (a ++ b ++ c) = c.
Proof.
  rewrite <- length_append_str, <- append_assoc_str, substring_skip.
  apply substring_all. rewrite !length_append_str. lia.
Qed.

Lemma get_substitution_no_pattern (m b a r : string) :
  no_dollar_pattern r = true -> EditFile.get_substitution m b a r = r.
Proof.
  induction r as [|c r IH]; [reflexivity|].
  cbn [no_dollar_pattern]. intros H. apply andb_true_iff in H as [Hc Hr].
  specialize (IH Hr).
  change (EditFile.get_substitution m b a (String c r))
    with (if Ascii.eqb c "$"%char then
            match r with
            | String d r'' =>
                if Ascii.eqb d "$"%char then "$" ++ EditFile.get_substitution m b a r''
                else if Ascii.eqb d "&"%char then m ++ EditFile.get_substitution m b a r''
                else if Ascii.eqb d "`"%char then b ++ EditFile.get_substitution m b a r''
                else if Ascii.eqb d "'"%char then a ++ EditFile.get_substitution m b a r''
                else String c (EditFile.get_substitution m b a r)
            | EmptyString => String c EmptyString
            end
          else String c (EditFile.get_substitution m b a r)).
  destruct (Ascii.eqb c "$"%char); [|now rewrite IH].
  destruct r as [|d r'']; [reflexivity|].
  unfold pattern_char in Hc.
  destruct (Ascii.eqb d "$"%char), (Ascii.eqb d "&"%char), (Ascii.eqb d "`"%char),
    (Ascii.eqb d "'"%char); try discriminate. now rewrite IH.
Qed.

Lemma no_dollar_no_pattern (r : string) : no_dollar r = true -> no_dollar_pattern r = true.
Proof.
  induction r as [|c r IH]; [reflexivity|]. simpl.
  intros H. apply andb_true_iff in H as [Hc Hr]. apply negb_true_iff in Hc.
  rewrite Hc, (IH Hr). reflexivity.
Qed.

Lemma get_substitution_no_dollar (m b a r : string) :
  no_dollar r = true -> EditFile.get_substitution m b a r = r.
Proof.
  induction r as [|c r IH]; simpl; [reflexivity|].
  intros Hd. apply andb_true_iff in Hd as [Hc Hr].
  apply negb_true_iff in Hc. rewrite Hc. now rewrite IH.
Qed.

(** C5 (refuted): with a file holding ["x-x"], replacing ["x"] (two
    occurrences) succeeds and rewrites only the first one, and replacing
    the absent ["z"] succeeds and leaves the text as it was. *)
Lemma C5_ambiguous_and_absent_accepted :
  let fs := write FS.empty "a.txt" "x-x" in
  snd (EditFile.execute fs "a.txt" (Some "x") "y") = EditFile.Edited "a.txt"
  /\ file_at (fst (EditFile.execute fs "a.txt" (Some "x") "y")) "a.txt" = Some "y-x"
  /\ snd (EditFile.execute fs "a.txt" (Some "z") "y") = EditFile.Edited "a.txt"
  /\ file_at (fst (EditFile.execute fs "a.txt" (Some "z") "y")) "a.txt" = Some "x-x".
Proof. vm_compute. repeat split. Qed.

(** The edit branch shared by the two [edit_file] tools: an existing
    file with a non-null [old_str] is rewritten with [js_replace]. *)
Lemma edit_branch (fs : fsys) (path o new_str contents : string)
    (run : fsys -> string -> option string -> string -> fsys * EditFile.result) :
  run = EditFile.execute \/ run = EditFileAgent.execute ->
  file_at fs path = Some contents -> write_error fs path = None ->
  run fs path (Some o) new_str
  = (write fs path (EditFile.js_replace contents o new_str), EditFile.Edited path).
Proof.
  intros [-> | ->] Hf Hw;
    [unfold EditFile.execute | unfold EditFileAgent.execute]; now rewrite Hf, Hw.
Qed.

(** C5 (amended): on an existing file with a non-null [old_str], both
    [edit_file] tools (of the file tools and of [codingAgent]) report
    success whatever the number of matches.  With no occurrence the file
    is rewritten with its own content; otherwise the first occurrence
    alone is replaced, by the expansion of [new_str] that
    [String.prototype.replace] makes, and the text after it, later
    occurrences included, is kept; a [new_str] with no [$] pattern is
    inserted verbatim. *)
Theorem C5_edit_replaces_first_occurrence (fs : fsys) (path old_str new_str contents : string)
    (Hf : file_at fs path = Some contents) (Hw : write_error fs path = None) :
  forall run, run = EditFile.execute \/ run = EditFileAgent.execute ->
  EditFile.success (snd (run fs path (Some old_str) new_str)) = true
  /\ (index 0 old_str contents = None ->
      file_at (fst (run fs path (Some old_str) new_str)) path = Some contents)
  /\ (forall pre post, contents = pre ++ old_str ++ post ->
      index 0 old_str contents = Some (String.length pre) ->
      file_at (fst (run fs path (Some old_str) new_str)) path
      = Some (pre ++ EditFile.get_substitution old_str pre post new_str ++ post)
      /\ (no_dollar_pattern new_str = true ->
          file_at (fst (run fs path (Some old_str) new_str)) path
          = Some (pre ++ new_str ++ post))).
Proof.
  intros run Hrun. rewrite (edit_branch fs path old_str new_str contents run Hrun Hf Hw).
  simpl fst; simpl snd. rewrite write_read.
  split; [reflexivity|]. split.
  - intros Hn. unfold EditFile.js_replace. now rewrite Hn.
  - intros pre post Hc Hi.
    assert (E : EditFile.js_replace contents old_str new_str
                = pre ++ EditFile.get_substitution old_str pre post new_str ++ post).
    { unfold EditFile.js_replace. rewrite Hi. rewrite Hc.
      rewrite substring_prefix, substring_suffix. reflexivity. }
    rewrite E. split; [reflexivity|].
    intros Hd. now rewrite get_substitution_no_pattern by exact Hd.
Qed.

Lemma C5_edit_replaces_first_occurrence_witness :
  file_at (write FS.empty "a.txt" "x-x") "a.txt" = Some "x-x"
  /\ write_error (write FS.empty "a.txt" "x-x") "a.txt" = None
  /\ EditFile.success (snd (EditFileAgent.execute (write FS.empty "a.txt" "x-x") "a.txt"
                               (Some "x") "y"))
     = true.
Proof.
  assert (Hf : file_at (write FS.empty "a.txt" "x-x") "a.txt" = Some "x-x") by reflexivity.
  assert (Hw : write_error (write FS.empty "a.txt" "x-x") "a.txt" = None) by reflexivity.
  split; [exact Hf|]. split; [exact Hw|].
  exact (proj1 (C5_edit_replaces_first_occurrence _ "a.txt" "x" "y" "x-x" Hf Hw
                  EditFileAgent.execute (or_intror eq_refl))).
Defined.

(* ================================================================= *)
(** * Generated read handler: claim C6 *)

Import Endpoint.

Lemma filter_none {A} (p : A -> bool) (l : list A) :
  (forall x, In x l -> p x = false) -> filter p l = [].
Proof.
  induction l as [|x l IH]; intros H; [reflexivity|].
  simpl. rewrite (H x (or_introl eq_refl)). apply IH. intros y Hy. apply H. now right.
Qed.

(** C6 (refuted): on an empty table, [GET ?id=42] answers status 200
    with body [null], not a not-found status. *)
Lemma C6_missing_id_is_200_null :
  GET [] (Some "42") = mkResp 200 JNull /\ status (GET [] (Some "42")) <> 404%Z.
Proof. split; [reflexivity | discriminate]. Qed.

(** C6 (amended): given an id that parses to an integer in the range of
    the [serial] id column and matching no record, the read handler
    answers status 200 with body [null]; this differs from the
    collection path, whose body is always an array (possibly empty), but
    it carries no not-found status.  An id that parses to a number out
    of the column's range makes the query fail: status 500. *)
Theorem C6_read_missing_id (table : list row) (i : string) (n : Z)
    (Hne : i <> EmptyString) (Hp : parseInt i = Some n) (Hr : int4 n = true)
    (Hmiss : forall r, In r table -> row_id r <> n) :
  GET table (Some i) = mkResp 200 JNull
  /\ (forall table', exists l, body (GET table' None) = JArr l)
  /\ (forall table', body (GET table' None) <> body (GET table (Some i)))
  /\ (forall j m, j <> EmptyString -> parseInt j = Some m -> int4 m = false ->
      GET table (Some j) = mkResp 500 (error_body "Failed to fetch data")).
Proof.
  assert (E : GET table (Some i) = mkResp 200 JNull).
  { unfold GET. apply String.eqb_neq in Hne. rewrite Hne. simpl negb. cbv iota.
    rewrite Hp, Hr. rewrite filter_none; [reflexivity|].
    intros r Hr'. apply Z.eqb_neq. now apply Hmiss. }
  split; [exact E|]. split; [|split].
  - intros table'. eexists. reflexivity.
  - intros table'. rewrite E. simpl. discriminate.
  - intros j m Hj Hpj Hm. unfold GET. apply String.eqb_neq in Hj. rewrite Hj.
    simpl negb. cbv iota. now rewrite Hpj, Hm.
Qed.

Lemma C6_read_missing_id_witness :
  "42" <> EmptyString /\ parseInt "42" = Some 42%Z /\ int4 42 = true
  /\ GET [mkRow 1 (JObj [("title", JStr "a")])] (Some "42") = mkResp 200 JNull.
Proof.
  assert (Hne : "42" <> EmptyString) by discriminate.
  assert (Hp : parseInt "42" = Some 42%Z) by reflexivity.
  assert (Hr : int4 42 = true) by reflexivity.
  assert (Hm : forall r, In r [mkRow 1 (JObj [("title", JStr "a")])] -> row_id r <> 42%Z).
  { intros r [<-|[]]. simpl. discriminate. }
  split; [exact Hne|]. split; [exact Hp|]. split; [exact Hr|].
  exact (proj1 (C6_read_missing_id _ "42" 42 Hne Hp Hr Hm)).
Defined.

(* ================================================================= *)
(** * Derived identifiers: claim C7 *)

Lemma split_no_char (c : ascii) (a : string) :
  has_char c a = false -> JS.split c a = [a].
Proof.
  induction a as [|d a IH]; simpl; [reflexivity|].
  intros H. apply orb_false_iff in H as [Hd Ha]. rewrite Hd, (IH Ha). reflexivity.
Qed.

Lemma split_app_sep (c : ascii) (a rest : string) :
  has_char c a = false -> JS.split c (a ++ String c rest) = a :: JS.split c rest.
Proof.
  induction a as [|d a IH]; simpl.
  - intros _. now rewrite Ascii.eqb_refl.
  - intros H. apply orb_false_iff in H as [Hd Ha]. rewrite Hd, (IH Ha). reflexivity.
Qed.

Lemma split_join (c : ascii) (ws : list string) :
  ws <> [] -> Forall (fun w => has_char c w = false) ws ->
  JS.split c (join (String c EmptyString) ws) = ws.
Proof.
  unfold join. induction ws as [|w ws IH]; intros Hne Hall; [congruence|].
  inversion Hall as [|? ? Hw Hws]; subst.
  destruct ws as [|w' ws].
  - simpl. now apply split_no_char.
  - change (String.concat (String c EmptyString) (w :: w' :: ws))
      with (w ++ String c EmptyString ++ String.concat (String c EmptyString) (w' :: ws)).
    change (String c EmptyString ++ String.concat (String c EmptyString) (w' :: ws))
      with (String c (String.concat (String c EmptyString) (w' :: ws))).
    rewrite split_app_sep by exact Hw. rewrite IH; [reflexivity|discriminate|exact Hws].
Qed.

Lemma kebab_app (a b : string) : Names.kebab (a ++ b) = Names.kebab a ++ Names.kebab b.
Proof. induction a as [|c a IH]; simpl; [reflexivity | now rewrite IH]. Qed.

Lemma kebab_no_underscore (a : string) : has_char "_"%char a = false -> Names.kebab a = a.
Proof.
  induction a as [|c a IH]; simpl; [reflexivity|].
  intros H. apply orb_false_iff in H as [Hc Ha]. rewrite Hc, (IH Ha). reflexivity.
Qed.

Lemma kebab_join (ws : list string) :
  Forall (fun w => has_char "_"%char w = false) ws ->
  Names.kebab (join "_" ws) = join "-" ws.
Proof.
  unfold join. induction ws as [|w ws IH]; intros Hall; [reflexivity|].
  inversion Hall as [|? ? Hw Hws]; subst.
  destruct ws as [|w' ws].
  - simpl. now apply kebab_no_underscore.
  - change (String.concat "_" (w :: w' :: ws)) with (w ++ "_" ++ String.concat "_" (w' :: ws)).
    change (String.concat "-" (w :: w' :: ws)) with (w ++ "-" ++ String.concat "-" (w' :: ws)).
    rewrite kebab_app, kebab_no_underscore by exact Hw.
    rewrite kebab_app, IH by exact Hws. reflexivity.
Qed.

(** C7 (refuted): the type name derived from [made_for_you_playlists] is
    [Made_for_you_playlists], not the PascalCase [MadeForYouPlaylists]. *)
Lemma C7_type_name_not_pascal :
  Names.type_name "made_for_you_playlists" = "Made_for_you_playlists"
  /\ Names.type_name "made_for_you_playlists" <> Names.pascal_case "made_for_you_playlists".
Proof. split; [reflexivity | vm_compute; discriminate]. Qed.

(** C7 (amended): the type name upper-cases only the first character of
    the table name (a lower-case ASCII letter becomes its capital, any
    other first character is kept) and keeps every other character
    (underscores included); the hook name is ["use"] followed by the route segment
    split at ['-'] with each piece capitalised, so for the kebab-case
    segment of a snake_case name it is ["use"] + PascalCase of that
    name. *)
Theorem C7_derived_names :
  (Names.type_name EmptyString = EmptyString
   /\ forall c r, exists c',
        Names.type_name (String c r) = String c' r
        /\ (97 <= nat_of_ascii c <= 122 -> nat_of_ascii c' + 32 = nat_of_ascii c)
        /\ (~ 97 <= nat_of_ascii c <= 122 -> c' = c))
  /\ (forall ws, ws <> [] ->
        Forall (fun w => has_char "_"%char w = false /\ has_char "-"%char w = false) ws ->
        Names.hook_name (Names.kebab (join "_" ws)) = "use" ++ Names.pascal_case (join "_" ws)).
Proof.
  split.
  - split; [reflexivity|]. intros c r. exists (char_upper c). split; [reflexivity|].
    unfold char_upper.
    destruct (Nat.leb 97 (nat_of_ascii c) && Nat.leb (nat_of_ascii c) 122) eqn:E.
    + apply andb_true_iff in E as [E1 E2]. apply Nat.leb_le in E1, E2.
      split; [|lia]. intros _. rewrite nat_ascii_embedding by lia. lia.
    + split; [|reflexivity]. intros Hc.
      apply andb_false_iff in E as [E|E]; apply Nat.leb_gt in E; lia.
  - intros ws Hne Hall.
    assert (Hu : Forall (fun w => has_char "_"%char w = false) ws)
      by (eapply Forall_impl; [|exact Hall]; intros w [H _]; exact H).
    assert (Hd : Forall (fun w => has_char "-"%char w = false) ws)
      by (eapply Forall_impl; [|exact Hall]; intros w [_ H]; exact H).
    unfold Names.hook_name, Names.pascal_case.
    rewrite kebab_join by exact Hu.
    rewrite (split_join "-"%char ws Hne Hd), (split_join "_"%char ws Hne Hu).
    reflexivity.
Qed.

Lemma C7_derived_names_witness :
  Names.hook_name (Names.kebab (join "_" ["made"; "for"; "you"; "playlists"]))
  = "use" ++ Names.pascal_case (join "_" ["made"; "for"; "you"; "playlists"]).
Proof.
  apply (proj2 C7_derived_names); [discriminate|].
  repeat constructor.
Defined.

(* ================================================================= *)
(** * The step loop: claim C3 *)

Import Orchestrator.

Section LoopProofs.

Variable engine : list step -> engine_reply.

(** Every recorded step holds the engine's reply to the steps before it. *)
Definition replies_from_engine (steps : list step) : Prop :=
  forall i s, nth_error steps i = Some s ->
    reply s = engine (firstn i steps) /\ seq s = S i.

Definition all_tool_calls (steps : list step) : Prop :=
  forall i s, nth_error steps i = Some s -> is_tool_call (reply s) = true.

Lemma replies_from_engine_snoc (steps : list step) (x : step) :
  replies_from_engine steps -> reply x = engine steps -> seq x = S (List.length steps) ->
  replies_from_engine (app steps [x]).
Proof.
  intros Hwf Hr Hs i s Hi.
  destruct (Nat.lt_ge_cases i (List.length steps)) as [Hlt|Hge].
  - rewrite nth_error_app1 in Hi by exact Hlt.
    rewrite firstn_app. replace (i - List.length steps) with 0 by lia.
    rewrite app_nil_r. now apply Hwf.
  - rewrite nth_error_app2 in Hi by exact Hge.
    destruct (i - List.length steps) as [|k] eqn:Hk; simpl in Hi;
      [|destruct k; discriminate].
    injection Hi as <-. assert (i = List.length steps) as -> by lia.
    rewrite firstn_app, firstn_all, Nat.sub_diag. simpl. rewrite app_nil_r.
    split; assumption.
Qed.

Lemma all_tool_calls_snoc (steps : list step) (x : step) :
  all_tool_calls steps -> is_tool_call (reply x) = true -> all_tool_calls (app steps [x]).
Proof.
  intros Ha Hx i s Hi.
  destruct (Nat.lt_ge_cases i (List.length steps)) as [Hlt|Hge].
  - rewrite nth_error_app1 in Hi by exact Hlt. exact (Ha i s Hi).
  - rewrite nth_error_app2 in Hi by exact Hge.
    destruct (i - List.length steps) as [|k]; simpl in Hi; [|destruct k; discriminate].
    now injection Hi as <-.
Qed.

Lemma ends_with_final_snoc (steps : list step) (x : step) :
  is_tool_call (reply x) = false -> ends_with_final_answer (app steps [x]) = true.
Proof.
  intros H. unfold ends_with_final_answer. rewrite rev_app_distr. simpl. now rewrite H.
Qed.

Lemma loop_spec (fuel : nat) (steps : list step) :
  replies_from_engine steps -> all_tool_calls steps ->
  List.length steps + fuel = step_budget -> 0 < fuel ->
  let r := loop engine fuel steps in
  List.length steps < List.length r <= step_budget
  /\ replies_from_engine r
  /\ (forall i s, S i < List.length r -> nth_error r i = Some s -> is_tool_call (reply s) = true)
  /\ (ends_with_final_answer r = true \/ List.length r = step_budget).
Proof.
  revert steps. induction fuel as [|f IH]; intros steps Hwf Hall Hlen Hpos; [lia|].
  simpl. destruct (engine steps) as [t|c] eqn:He.
  - set (x := mkStep (S (List.length steps)) (FinalAnswer t) None).
    rewrite length_app. change (List.length [x]) with 1.
    split; [lia|]. split.
    + apply replies_from_engine_snoc; [exact Hwf | exact (eq_sym He) | reflexivity].
    + split.
      * intros i s Hi Hs.
        rewrite nth_error_app1 in Hs by lia. exact (Hall i s Hs).
      * left. now apply ends_with_final_snoc.
  - set (x := mkStep (S (List.length steps)) (ToolCall c) (Some (execute_tool c))).
    assert (Hwf' : replies_from_engine (app steps [x]))
      by (apply replies_from_engine_snoc; [exact Hwf | exact (eq_sym He) | reflexivity]).
    assert (Hall' : all_tool_calls (app steps [x]))
      by (apply all_tool_calls_snoc; [exact Hall | reflexivity]).
    destruct (Nat.eqb (List.length (app steps [x])) step_budget) eqn:Hb.
    + apply Nat.eqb_eq in Hb. rewrite Hb.
      split; [rewrite length_app in Hb; simpl in Hb; lia|]. split; [exact Hwf'|].
      split; [|right; reflexivity].
      intros i s _ Hs. exact (Hall' i s Hs).
    + apply Nat.eqb_neq in Hb. rewrite length_app in Hb. simpl in Hb.
      destruct (IH (app steps [x]) Hwf' Hall') as (Hl & Hw & Hc & He');
        [rewrite length_app; simpl; lia | lia |].
      rewrite length_app in Hl. simpl in Hl.
      split; [lia|]. auto.
Qed.

End LoopProofs.

(** C3 (refuted): an engine that runs [analyze_request] on a two-entity
    request and then gives a final answer ends the run after 2 of the 15
    steps, on its final answer, with no schema written for the entities
    discovered. *)
Lemma C3_early_final_answer_accepted :
  let st := generate_text early_stop_engine in
  ends_with_final_answer st = true
  /\ List.length st = 2
  /\ List.length st < step_budget
  /\ discovered st = ["made_for_you_playlists"; "popular_albums"]
  /\ workflow_incomplete st = true.
Proof.
  vm_compute. split; [reflexivity|]. split; [reflexivity|].
  split; [lia|]. split; reflexivity.
Qed.

(** C3 (amended): the run of [databaseAgent] is decided by the engine
    alone.  For every engine, it has between 1 and 15 steps, each step
    holds exactly the engine's reply to the steps before it (no
    corrective observation is inserted), every step but the last is a
    tool call, and the run ends on the engine's first final answer or
    after 15 steps. *)
Theorem C3_run_ends_on_engine (engine : list step -> engine_reply) :
  let st := generate_text engine in
  1 <= List.length st <= step_budget
  /\ (forall i s, nth_error st i = Some s ->
        reply s = engine (firstn i st) /\ seq s = S i)
  /\ (forall i s, S i < List.length st -> nth_error st i = Some s ->
        is_tool_call (reply s) = true)
  /\ (ends_with_final_answer st = true \/ List.length st = step_budget).
Proof.
  intros st.
  destruct (loop_spec engine step_budget [])
    as (Hl & Hw & Hc & He).
  - intros i s Hs. destruct i; discriminate.
  - intros i s Hs. destruct i; discriminate.
  - reflexivity.
  - unfold step_budget. lia.
  - fold (generate_text engine) in *. fold st in Hl, Hw, Hc, He.
    simpl in Hl. split; [lia|]. split; [exact Hw|]. split; assumption.
Qed.

(* ================================================================= *)
(** * Further properties of the tools *)

(** ** Occurrences: [index], [includes] and [contains] *)

Lemma prefix_app (x s : string) : prefix x s = true -> exists post, s = x ++ post.
Proof.
  revert s. induction x as [|c x IH]; intros s H.
  - now exists s.
  - destruct s as [|d s]; [discriminate|]. simpl in H.
    destruct (ascii_dec c d) as [<-|]; [|discriminate].
    destruct (IH s H) as [post ->]. now exists post.
Qed.

Lemma index_some_split (s x : string) (n m : nat) :
  index n x s = Some m -> exists pre post, s = pre ++ x ++ post /\ String.length pre = m.
Proof.
  revert n m. induction s as [|b s IH]; intros n m H.
  - destruct n; [|discriminate]. destruct x; [|discriminate].
    injection H as <-. exists EmptyString, EmptyString. split; reflexivity.
  - assert (Hstep : forall k j, index k x s = Some j -> m = S j ->
              exists pre post, String b s = pre ++ x ++ post /\ String.length pre = m).
    { intros k j Hi ->. destruct (IH _ _ Hi) as [a [c [Hs Hl]]]. rewrite Hs.
      exists (String b a), c. simpl. split; [reflexivity|now rewrite Hl]. }
    destruct n as [|n].
    + change (index 0 x (String b s)) with
        (if prefix x (String b s) then Some 0
         else match index 0 x s with Some k => Some (S k) | None => None end) in H.
      destruct (prefix x (String b s)) eqn:Hp.
      * injection H as <-. destruct (prefix_app _ _ Hp) as [post Hpost].
        exists EmptyString, post. split; [exact Hpost|reflexivity].
      * destruct (index 0 x s) as [j|] eqn:Hi; [|discriminate].
        injection H as <-. exact (Hstep 0 j Hi eq_refl).
    + change (index (S n) x (String b s)) with
        (match index n x s with Some k => Some (S k) | None => None end) in H.
      destruct (index n x s) as [j|] eqn:Hi; [|discriminate].
      injection H as <-. exact (Hstep n j Hi eq_refl).
Qed.

Lemma index_some_contains (s x : string) (n m : nat) :
  index n x s = Some m -> contains s x.
Proof.
  intros H. destruct (index_some_split _ _ _ _ H) as [a [b [Hs _]]]. now exists a, b.
Qed.

Lemma contains_includes (s x : string) : contains s x -> includes s x = true.
Proof.
  intros [a [b ->]]. unfold includes.
  destruct (index 0 x (a ++ x ++ b)) eqn:Hi; [reflexivity|].
  destruct x as [|c x].
  - destruct (a ++ EmptyString ++ b); discriminate.
  - exfalso. apply (index_correct3 0 (String.length a) (String c x) _ Hi); [discriminate|lia|].
    rewrite substring_skip. apply substring_prefix.
Qed.

Lemma includes_contains (s x : string) : includes s x = true -> contains s x.
Proof.
  unfold includes. destruct (index 0 x s) eqn:Hi; [|discriminate].
  intros _. exact (index_some_contains _ _ _ _ Hi).
Qed.

Lemma contains_app_l (s a b : string) : contains s (a ++ b) -> contains s a.
Proof.
  intros [p [q ->]]. exists p, (b ++ q). now rewrite append_assoc_str.
Qed.

Lemma includes_app_l (s a b : string) : includes s (a ++ b) = true -> includes s a = true.
Proof. intros H. apply contains_includes, (contains_app_l _ _ b), includes_contains, H. Qed.

Lemma contains_trans (s x y : string) : contains s x -> contains x y -> contains s y.
Proof.
  intros [a [b ->]] [c [d ->]]. exists (a ++ c), (d ++ b).
  now rewrite !append_assoc_str.
Qed.

(** ** The request segmenter *)

Lemma albums_names_ok :
  ~ In "albums" ["made_for_you_playlists"; "popular_albums"; "recently_played_songs"].
Proof. simpl. intuition discriminate. Qed.

(** The fallback reads the same with its second alternative dropped. *)
Lemma album_fallback_condition (r : string) (e : nat) :
  (includes r "album" && Nat.eqb e 0) || (includes r "albums" && Nat.eqb e 0)
  = includes r "album" && Nat.eqb e 0.
Proof.
  destruct (includes r "albums") eqn:H2.
  - rewrite (includes_app_l r "album" "s" H2). now rewrite orb_diag.
  - simpl. now rewrite orb_false_r.
Qed.

Lemma trigger_popular_albums_short (r : string) :
  trigger_popular_albums r = includes r "popular album".
Proof.
  unfold trigger_popular_albums.
  destruct (includes r "popular albums") eqn:H; [|reflexivity].
  now rewrite (includes_app_l r "popular album" "s" H).
Qed.

Lemma trigger_recently_played_short (r : string) :
  trigger_recently_played r = includes r "recent".
Proof.
  unfold trigger_recently_played.
  destruct (includes r "recently played") eqn:H; [|reflexivity].
  now rewrite (includes_app_l r "recent" "ly played" H).
Qed.

(** X1: the longer phrases of the trigger table are redundant: a request
    fires the popular-albums rule exactly when it contains
    ["popular album"], the recently-played rule exactly when it contains
    ["recent"], and the album fallback exactly when it contains
    ["album"] and no rule fired. *)
Theorem analyze_request_short_triggers (userRequest : string) :
  let r := toLowerCase userRequest in
  let es := app (if includes r "made for you" then [made_for_you] else [])
           (app (if includes r "popular album" then [popular_albums] else [])
                (if includes r "recent" then [recently_played] else [])) in
  analyze_request userRequest
  = if includes r "album" && Nat.eqb (List.length es) 0 then [albums] else es.
Proof.
  intros r es. unfold analyze_request. fold r.
  rewrite album_fallback_condition, trigger_popular_albums_short, trigger_recently_played_short.
  unfold trigger_made_for_you. subst es.
  destruct (includes r "made for you"), (includes r "popular album"),
    (includes r "recent"), (includes r "album"); reflexivity.
Qed.

(** X2: every analysis names each entity once, holds at most three
    entities, holds the generic [albums] entity only alone, and is empty
    exactly when no rule fired and the request does not mention
    ["album"]. *)
Theorem analyze_request_shape (userRequest : string) :
  let es := analyze_request userRequest in
  NoDup (map ename es)
  /\ List.length es <= 3
  /\ (In albums es -> es = [albums])
  /\ (es = [] <-> matched_triggers userRequest = 0
                  /\ includes (toLowerCase userRequest) "album" = false).
Proof.
  pose proof NoDup_names_ok as (N3 & N12 & N13 & N23).
  pose proof albums_names_ok as Nal.
  intros es. subst es. unfold analyze_request, matched_triggers.
  rewrite album_fallback_condition.
  set (r := toLowerCase userRequest).
  destruct (trigger_made_for_you r), (trigger_popular_albums r),
    (trigger_recently_played r), (includes r "album");
    simpl; (split; [repeat constructor; simpl; intuition discriminate|]);
    (split; [lia|]);
    (split; [intros Hin; simpl in Hin; intuition (subst; try discriminate; try reflexivity)
             ; match goal with H : _ = albums |- _ =>
                 apply (f_equal ename) in H; simpl in H; discriminate end
            |]);
    split; intros H; try discriminate; try lia;
    try (destruct H as [H1 H2]; discriminate); auto.
Qed.

(** X3: the analysis object counts the entities it returns, and gives
    the multiple-entities recommendation exactly when at least two rules
    of the trigger table fire. *)
Theorem analyze_request_recommendation (userRequest : string) :
  let o := AnalyzeRequest.execute userRequest in
  AnalyzeRequest.entitiesFound o = List.length (AnalyzeRequest.entities o)
  /\ (AnalyzeRequest.recommendation o
        = "Multiple entities detected. Create separate tables for each."
      <-> 2 <= matched_triggers userRequest).
Proof.
  intros o. subst o. unfold AnalyzeRequest.execute. simpl. split; [reflexivity|].
  unfold analyze_request, matched_triggers.
  rewrite album_fallback_condition.
  set (r := toLowerCase userRequest).
  destruct (trigger_made_for_you r), (trigger_popular_albums r),
    (trigger_recently_played r), (includes r "album");
    simpl; split; intros H; (reflexivity || lia || discriminate).
Qed.

(** ** [create_multiple_schemas] *)

Lemma append_cancel_l_str (a b c : string) : a ++ b = a ++ c -> b = c.
Proof. induction a as [|x a IH]; simpl; [tauto|]. intros H. injection H as H. now apply IH. Qed.

Lemma last_opt_cons {A : Type} (x : A) (l : list A) :
  Integrate.last_opt (x :: l)
  = match Integrate.last_opt l with Some y => Some y | None => Some x end.
Proof.
  revert x. induction l as [|y l IH]; intros x; [reflexivity|].
  change (Integrate.last_opt (x :: y :: l)) with (Integrate.last_opt (y :: l)).
  rewrite (IH y). destruct (Integrate.last_opt l); reflexivity.
Qed.

Lemma forallb_filter_length {A : Type} (p : A -> bool) (l : list A) :
  forallb p l = true <-> List.length (filter p l) = List.length l.
Proof.
  induction l as [|x l IH]; simpl; [tauto|].
  assert (Hle : List.length (filter p l) <= List.length l) by apply filter_length_le.
  destruct (p x); simpl.
  - rewrite IH. lia.
  - split; [discriminate|lia].
Qed.

(** X4: [create_multiple_schemas] returns one result per entity, in the
    order of the entities and under their names, and reports [success]
    exactly when [totalCreated] equals the number of entities. *)
Theorem multiple_schemas_results (fs : fsys) (entities : list entity) :
  let o := snd (MultipleSchemas.execute fs entities) in
  map MultipleSchemas.entry_table (MultipleSchemas.results o) = map ename entities
  /\ (MultipleSchemas.success o = true
      <-> MultipleSchemas.totalCreated o = List.length entities).
Proof.
  intros o. subst o. unfold MultipleSchemas.execute.
  assert (Ht : forall fs, map MultipleSchemas.entry_table (snd (MultipleSchemas.run fs entities))
                          = map ename entities).
  { induction entities as [|e es IH]; intros fs'; [reflexivity|].
    simpl. destruct (write_error fs' (MultipleSchemas.schema_path (ename e))).
    - pose proof (IH fs') as H.
      destruct (MultipleSchemas.run fs' es) as [fs2 rs]. simpl in *. f_equal. exact H.
    - pose proof (IH (write fs' (MultipleSchemas.schema_path (ename e))
                        (schema_content_multi (ename e) (efields e)))) as H.
      destruct (MultipleSchemas.run _ es) as [fs2 rs]. simpl in *. f_equal. exact H. }
  specialize (Ht fs).
  destruct (MultipleSchemas.run fs entities) as [fs' results]. simpl in *.
  split; [exact Ht|].
  rewrite forallb_filter_length.
  apply (f_equal (@List.length string)) in Ht. rewrite !length_map in Ht.
  rewrite Ht. tauto.
Qed.

(** X5: one entity's failure does not stop the others: the result for
    each entity is a success exactly when its own schema file
    [src/database/schemas/<name>.ts] can be written. *)
Theorem multiple_schemas_failure_isolated (fs : fsys) (entities : list entity)
    (i : nat) (e : entity) (Hi : nth_error entities i = Some e) :
  exists r,
    nth_error (MultipleSchemas.results (snd (MultipleSchemas.execute fs entities))) i = Some r
    /\ MultipleSchemas.entry_table r = ename e
    /\ (MultipleSchemas.entry_success r = true
        <-> write_error fs (MultipleSchemas.schema_path (ename e)) = None).
Proof.
  unfold MultipleSchemas.execute.
  enough (H : forall fs, exists r,
            nth_error (snd (MultipleSchemas.run fs entities)) i = Some r
            /\ MultipleSchemas.entry_table r = ename e
            /\ (MultipleSchemas.entry_success r = true
                <-> write_error fs (MultipleSchemas.schema_path (ename e)) = None)).
  { destruct (H fs) as [r Hr]. exists r.
    destruct (MultipleSchemas.run fs entities). exact Hr. }
  revert i Hi. induction entities as [|x es IH]; intros i Hi fs'; [destruct i; discriminate|].
  destruct i as [|i].
  - simpl in Hi. injection Hi as ->. simpl.
    destruct (write_error fs' _) as [err|] eqn:Hw;
      destruct (MultipleSchemas.run _ es) as [fs2 rs]; simpl;
      eexists; (split; [reflexivity|]); simpl; split; try reflexivity.
    + split; discriminate.
    + tauto.
  - simpl in Hi. simpl.
    destruct (write_error fs' (MultipleSchemas.schema_path (ename x))) as [err|] eqn:Hw.
    + destruct (IH i Hi fs') as [r Hr].
      destruct (MultipleSchemas.run fs' es) as [fs2 rs]. simpl. exists r. exact Hr.
    + set (fs1 := write fs' _ _).
      destruct (IH i Hi fs1) as [r Hr].
      destruct (MultipleSchemas.run fs1 es) as [fs2 rs]. simpl. exists r. exact Hr.
Qed.

Lemma multiple_schemas_failure_isolated_witness :
  nth_error [albums; popular_albums] 1 = Some popular_albums
  /\ exists r,
    nth_error (MultipleSchemas.results
                 (snd (MultipleSchemas.execute
                         (mkFs (fun _ => None)
                               (fun p => if p =? "src/database/schemas/albums.ts"
                                         then Some "EACCES" else None))
                         [albums; popular_albums]))) 1 = Some r
    /\ MultipleSchemas.entry_table r = "popular_albums"
    /\ MultipleSchemas.entry_success r = true.
Proof.
  assert (Hi : nth_error [albums; popular_albums] 1 = Some popular_albums) by reflexivity.
  split; [exact Hi|].
  destruct (multiple_schemas_failure_isolated
              (mkFs (fun _ => None)
                    (fun p => if p =? "src/database/schemas/albums.ts"
                              then Some "EACCES" else None))
              _ 1 _ Hi) as [r (Hr & Ht & Hs)].
  exists r. split; [exact Hr|]. split; [exact Ht|]. apply Hs. reflexivity.
Defined.

(** ** [edit_file] *)

Lemma js_replace_found (s x r : string) (p : nat) :
  index 0 x s = Some p ->
  exists pre post, s = pre ++ x ++ post /\ String.length pre = p
    /\ EditFile.js_replace s x r = pre ++ EditFile.get_substitution x pre post r ++ post.
Proof.
  intros Hi. destruct (index_some_split _ _ _ _ Hi) as [pre [post [Hs Hl]]].
  exists pre, post. split; [exact Hs|]. split; [exact Hl|].
  unfold EditFile.js_replace. rewrite Hi. subst s p.
  rewrite substring_prefix, substring_suffix. reflexivity.
Qed.

(** The create branch of the file tools' [edit_file]. *)
Lemma edit_file_create_branch (fs : fsys) (path : string)
    (old_str : option string) (new_str : string) :
  write_error fs path = None -> (old_str = None \/ file_at fs path = None) ->
  EditFile.execute fs path old_str new_str = (write fs path new_str, EditFile.Created path).
Proof.
  unfold EditFile.execute.
  intros Hw [-> | Hf]; [|rewrite Hf]; rewrite Hw; [destruct (file_at fs path)|]; reflexivity.
Qed.

(** X7: [edit_file] of the file tools writes no file when the write
    fails; when it succeeds with a null [old_str] or on a missing file,
    the file becomes [new_str] whole, an existing file being
    overwritten; with an empty [old_str] on
    an existing file, the expansion of [new_str] is put in front of the
    old text, [new_str] itself when it has no [$] pattern. *)
Theorem edit_file_create_and_empty_pattern (fs : fsys) (path : string)
    (old_str : option string) (new_str : string) :
  (forall e, write_error fs path = Some e ->
     snd (EditFile.execute fs path old_str new_str) = EditFile.Failed e
     /\ forall q, file_at (fst (EditFile.execute fs path old_str new_str)) q = file_at fs q)
  /\ (write_error fs path = None -> (old_str = None \/ file_at fs path = None) ->
      snd (EditFile.execute fs path old_str new_str) = EditFile.Created path
      /\ file_at (fst (EditFile.execute fs path old_str new_str)) path = Some new_str)
  /\ (forall contents, write_error fs path = None -> file_at fs path = Some contents ->
      file_at (fst (EditFile.execute fs path (Some EmptyString) new_str)) path
      = Some (EditFile.get_substitution EmptyString EmptyString contents new_str ++ contents)
      /\ (no_dollar_pattern new_str = true ->
          file_at (fst (EditFile.execute fs path (Some EmptyString) new_str)) path
          = Some (new_str ++ contents))).
Proof.
  split; [|split].
  - intros e He. unfold EditFile.execute. rewrite He.
    destruct (file_at fs path), old_str; split; reflexivity.
  - intros Hw Hc. rewrite (edit_file_create_branch fs path old_str new_str Hw Hc).
    simpl fst; simpl snd. split; [reflexivity|apply write_read].
  - intros contents Hw Hf. unfold EditFile.execute. rewrite Hf, Hw. simpl fst.
    rewrite write_read.
    assert (Hi : index 0 EmptyString contents = Some 0) by (destruct contents; reflexivity).
    destruct (js_replace_found contents EmptyString new_str 0 Hi) as [pre [post [Hs [Hl ->]]]].
    destruct pre; [|discriminate]. simpl in Hs. subst contents. simpl.
    split; [reflexivity|]. intros Hd. now rewrite get_substitution_no_pattern.
Qed.

(** X8: the [$] patterns of [String.prototype.replace] reach the file:
    editing with [new_str = "$&"] rewrites the file with its own text,
    and [new_str = "$$"] puts a single [$] in place of the first
    occurrence of [old_str]. *)
Theorem edit_file_dollar_patterns (fs : fsys) (path old_str contents : string)
    (Hf : file_at fs path = Some contents) (Hw : write_error fs path = None) :
  file_at (fst (EditFile.execute fs path (Some old_str) "$&")) path = Some contents
  /\ (forall pre post, index 0 old_str contents = Some (String.length pre) ->
      contents = pre ++ old_str ++ post ->
      file_at (fst (EditFile.execute fs path (Some old_str) "$$")) path
      = Some (pre ++ "$" ++ post)).
Proof.
  unfold EditFile.execute. rewrite Hf, Hw. simpl fst. rewrite !write_read.
  split.
  - f_equal. destruct (index 0 old_str contents) as [p|] eqn:Hi.
    + destruct (js_replace_found contents old_str "$&" p Hi) as [pre [post [Hs [_ ->]]]].
      simpl. rewrite append_empty_r. now rewrite Hs.
    + unfold EditFile.js_replace. now rewrite Hi.
  - intros pre post Hi Hc. f_equal.
    destruct (js_replace_found contents old_str "$$" _ Hi) as [pre' [post' [Hs [Hl ->]]]].
    assert (E : pre' = pre /\ post' = post).
    { rewrite Hc in Hs. clear -Hs Hl.
      revert pre' Hs Hl. induction pre as [|c pre IH]; intros pre' Hs Hl.
      - destruct pre'; [|discriminate]. simpl in Hs.
        split; [reflexivity|]. symmetry. exact (append_cancel_l_str _ _ _ Hs).
      - destruct pre' as [|d pre']; [discriminate|]. simpl in Hs, Hl.
        injection Hs as -> Hs. injection Hl as Hl.
        destruct (IH pre' Hs Hl) as [-> ->]. split; reflexivity. }
    destruct E as [-> ->]. reflexivity.
Qed.

Lemma edit_file_dollar_patterns_witness :
  file_at (fst (EditFile.execute (write FS.empty "a.txt" "x-x") "a.txt" (Some "x") "$$")) "a.txt"
  = Some "$-x".
Proof.
  assert (Hf : file_at (write FS.empty "a.txt" "x-x") "a.txt" = Some "x-x") by reflexivity.
  assert (Hw : write_error (write FS.empty "a.txt" "x-x") "a.txt" = None) by reflexivity.
  exact (proj2 (edit_file_dollar_patterns _ "a.txt" "x" "x-x" Hf Hw)
           EmptyString "-x" eq_refl eq_refl).
Defined.

(** X9: the [edit_file] of [codingAgent] can only edit: on a missing file
    or with a null [old_str] it fails with a [TypeError] and writes
    nothing, where the [edit_file] of the file tools creates the file. *)
Theorem coding_agent_edit_file_never_creates (fs : fsys) (path : string)
    (old_str : option string) (new_str : string)
    (Hc : old_str = None \/ file_at fs path = None) :
  EditFileAgent.execute fs path old_str new_str
  = (fs, EditFile.Failed "path.dirname is not a function")
  /\ (write_error fs path = None ->
      EditFile.execute fs path old_str new_str = (write fs path new_str, EditFile.Created path)).
Proof.
  split.
  - unfold EditFileAgent.execute. destruct Hc as [-> | ->];
      [destruct (file_at fs path)|]; reflexivity.
  - intros Hw. exact (edit_file_create_branch fs path old_str new_str Hw Hc).
Qed.

Lemma coding_agent_edit_file_never_creates_witness :
  EditFileAgent.execute FS.empty "src/new.ts" None "x"
  = (FS.empty, EditFile.Failed "path.dirname is not a function").
Proof.
  exact (proj1 (coding_agent_edit_file_never_creates FS.empty "src/new.ts" None "x"
                  (or_introl eq_refl))).
Defined.


(** ** The DELETE handler and the client hook *)

Definition is_digit (c : ascii) : bool :=
  Nat.leb 48 (nat_of_ascii c) && Nat.leb (nat_of_ascii c) 57.

Fixpoint all_digits (s : string) : bool :=
  match s with
  | EmptyString => true
  | String c r => is_digit c && all_digits r
  end.

Lemma digit_char (k : nat) :
  k < 10 ->
  is_digit (ascii_of_nat (48 + k)) = true
  /\ Endpoint.digit_val (ascii_of_nat (48 + k)) = Some (Z.of_nat k).
Proof.
  intros Hk. unfold is_digit, Endpoint.digit_val.
  rewrite nat_ascii_embedding by lia.
  replace (Nat.leb 48 (48 + k)) with true by (symmetry; apply Nat.leb_le; lia).
  replace (Nat.leb (48 + k) 57) with true by (symmetry; apply Nat.leb_le; lia).
  split; [reflexivity|]. simpl andb. cbv iota. f_equal. f_equal. lia.
Qed.

Lemma is_digit_val (c : ascii) :
  is_digit c = true -> exists d, Endpoint.digit_val c = Some d /\ (0 <= d < 10)%Z.
Proof.
  unfold is_digit, Endpoint.digit_val. intros H. rewrite H.
  apply andb_true_iff in H as [H1 H2]. apply Nat.leb_le in H1, H2.
  eexists. split; [reflexivity|]. lia.
Qed.

Lemma digits_app (o : option Z) (a b : string) :
  all_digits a = true ->
  Endpoint.digits 10 o (a ++ b) = Endpoint.digits 10 (Endpoint.digits 10 o a) b.
Proof.
  revert o. induction a as [|c a IH]; intros o H; [reflexivity|].
  simpl in H. apply andb_true_iff in H as [Hc Ha].
  destruct (is_digit_val c Hc) as [d [Hd Hr]].
  simpl. rewrite Hd. replace (d <? 10)%Z with true by (symmetry; apply Z.ltb_lt; lia).
  now apply IH.
Qed.

Lemma dec_aux_app (f : nat) (n : Z) (acc : string) :
  EndpointDelete.dec_aux f n acc = EndpointDelete.dec_aux f n EmptyString ++ acc.
Proof.
  revert n acc. induction f as [|f IH]; intros n acc; [reflexivity|].
  cbn [EndpointDelete.dec_aux].
  set (d := ascii_of_nat (48 + Z.to_nat (n mod 10))).
  destruct (n <? 10)%Z; [reflexivity|].
  rewrite IH, (IH _ (String d EmptyString)). now rewrite append_assoc_str.
Qed.

Lemma mod10_digit (n : Z) : Z.to_nat (n mod 10) < 10.
Proof. pose proof (Z.mod_pos_bound n 10 eq_refl). lia. Qed.

Lemma all_digits_app (a b : string) :
  all_digits a = true -> all_digits b = true -> all_digits (a ++ b) = true.
Proof.
  induction a as [|c a IH]; intros Ha Hb; [exact Hb|].
  cbn [all_digits append] in *. apply andb_true_iff in Ha as [H1 H2].
  rewrite H1. now apply IH.
Qed.

Lemma dec_aux_digits (f : nat) (n : Z) : all_digits (EndpointDelete.dec_aux f n EmptyString) = true.
Proof.
  revert n. induction f as [|f IH]; intros n; [reflexivity|].
  cbn [EndpointDelete.dec_aux].
  pose proof (proj1 (digit_char _ (mod10_digit n))) as Hd.
  set (d := ascii_of_nat (48 + Z.to_nat (n mod 10))) in *.
  assert (Hdd : all_digits (String d EmptyString) = true)
    by (cbn [all_digits]; now rewrite Hd).
  destruct (n <? 10)%Z; [exact Hdd|].
  rewrite dec_aux_app. now apply all_digits_app.
Qed.

Lemma digits_one (o : option Z) (n : Z) :
  Endpoint.digits 10 o (String (ascii_of_nat (48 + Z.to_nat (n mod 10))) EmptyString)
  = Some ((match o with Some a => a | None => 0 end) * 10 + n mod 10)%Z.
Proof.
  cbn [Endpoint.digits].
  rewrite (proj2 (digit_char _ (mod10_digit n))).
  rewrite Z2Nat.id by (apply Z.mod_pos_bound; lia).
  replace (n mod 10 <? 10)%Z with true
    by (symmetry; apply Z.ltb_lt; apply Z.mod_pos_bound; lia).
  reflexivity.
Qed.

Lemma dec_aux_S (f : nat) (n : Z) (acc : string) :
  EndpointDelete.dec_aux (S f) n acc
  = if (n <? 10)%Z then String (ascii_of_nat (48 + Z.to_nat (n mod 10))) acc
    else EndpointDelete.dec_aux f (n / 10) (String (ascii_of_nat (48 + Z.to_nat (n mod 10))) acc).
Proof. reflexivity. Qed.

Lemma dec_aux_value (f : nat) (n : Z) :
  (0 <= n < 10 ^ Z.of_nat (S f))%Z ->
  Endpoint.digits 10 None (EndpointDelete.dec_aux (S f) n EmptyString) = Some n.
Proof.
  revert n. induction f as [|f IH]; intros n Hn.
  - rewrite dec_aux_S.
    replace (n <? 10)%Z with true by (symmetry; apply Z.ltb_lt; simpl in Hn; lia).
    rewrite digits_one. f_equal. rewrite Z.mod_small by (simpl in Hn; lia). lia.
  - rewrite dec_aux_S.
    destruct (n <? 10)%Z eqn:Hlt.
    + apply Z.ltb_lt in Hlt. rewrite digits_one. f_equal.
      rewrite Z.mod_small by lia. lia.
    + apply Z.ltb_ge in Hlt.
      rewrite dec_aux_app, digits_app by apply dec_aux_digits.
      rewrite IH.
      * rewrite digits_one. f_equal. pose proof (Z.div_mod n 10). lia.
      * split; [apply Z.div_pos; lia|].
        apply Z.div_lt_upper_bound; [lia|].
        rewrite Nat2Z.inj_succ, Z.pow_succ_r in Hn by lia. lia.
Qed.

Lemma parseInt_digits (s : string) :
  all_digits s = true -> s <> EmptyString -> Endpoint.parseInt s = Endpoint.digits 10 None s.
Proof.
  intros H Hne. destruct s as [|c r]; [contradiction|].
  simpl in H. apply andb_true_iff in H as [Hc Hr].
  unfold Endpoint.parseInt.
  assert (Hs : Endpoint.skip_ws (String c r) = String c r).
  { simpl. replace (Endpoint.is_ws c) with false; [reflexivity|].
    unfold is_digit in Hc. unfold Endpoint.is_ws.
    apply andb_true_iff in Hc as [H1 H2]. apply Nat.leb_le in H1, H2.
    symmetry. apply orb_false_iff. split.
    - apply Nat.eqb_neq. lia.
    - apply andb_false_iff. right. apply Nat.leb_gt. lia. }
  rewrite Hs. unfold Endpoint.parse_unsigned.
  assert (Hx : forall x, is_digit x = true ->
            (Ascii.eqb x "x"%char || Ascii.eqb x "X"%char) = false).
  { intros x Hx. destruct (Ascii.eqb_spec x "x"%char) as [->|_]; [discriminate|].
    destruct (Ascii.eqb_spec x "X"%char) as [->|_]; [discriminate|reflexivity]. }
  destruct r as [|x r'].
  - destruct c as [[] [] [] [] [] [] [] []]; try reflexivity; vm_compute in Hc; discriminate.
  - simpl in Hr. apply andb_true_iff in Hr as [Hxd _]. specialize (Hx x Hxd).
    destruct c as [[] [] [] [] [] [] [] []]; try reflexivity;
      try (vm_compute in Hc; discriminate).
    cbn. rewrite Hx. reflexivity.
Qed.

(** The decimal text of a safe integer id is read back by [parseInt]. *)
Lemma parseInt_to_decimal (n : Z) :
  (0 <= n <= 2 ^ 53)%Z ->
  Endpoint.parseInt (EndpointDelete.to_decimal n) = Some n
  /\ EndpointDelete.to_decimal n <> EmptyString.
Proof.
  intros Hn. unfold EndpointDelete.to_decimal.
  assert (Hne : EndpointDelete.dec_aux 64 n EmptyString <> EmptyString).
  { rewrite dec_aux_S. destruct (n <? 10)%Z; [discriminate|].
    rewrite dec_aux_app. destruct (EndpointDelete.dec_aux 63 _ _); discriminate. }
  split; [|exact Hne].
  rewrite parseInt_digits by (apply dec_aux_digits || exact Hne).
  apply dec_aux_value. split; [lia|].
  assert (Hb : (2 ^ 53 < 10 ^ Z.of_nat 64)%Z) by (vm_compute; reflexivity). lia.
Qed.

(** How [DELETE] answers an id that [parseInt] reads as [n]. *)
Lemma delete_parsed (table : list row) (i : string) (n : Z) :
  parseInt i = Some n ->
  EndpointDelete.DELETE table (Some i)
  = if Endpoint.int4 n then
      (filter (fun r => negb (Z.eqb (row_id r) n)) table,
       mkResp 200 (JObj [("success", JBool true)]))
    else (table, mkResp 500 (error_body "Failed to delete data")).
Proof.
  intros Hp. unfold EndpointDelete.DELETE.
  destruct (i =? EmptyString) eqn:Ei.
  - apply String.eqb_eq in Ei. subst i. discriminate.
  - simpl negb. cbv iota. now rewrite Hp.
Qed.

(** X10: the DELETE handler answers 400 [ID is required] and keeps the
    table when the id is absent or empty; for an id that [parseInt]
    reads as a 32-bit [n] it removes exactly the rows of id [n] and
    answers 200 [{ success: true }], whether or not such a row existed;
    an id read as a number out of that range, or as [NaN], leaves the
    table and answers 500. *)
Theorem delete_handler_behaviour (table : list row) :
  EndpointDelete.DELETE table None = (table, mkResp 400 (error_body "ID is required"))
  /\ EndpointDelete.DELETE table (Some EmptyString)
     = (table, mkResp 400 (error_body "ID is required"))
  /\ (forall i n, parseInt i = Some n -> Endpoint.int4 n = true ->
      EndpointDelete.DELETE table (Some i)
      = (filter (fun r => negb (Z.eqb (row_id r) n)) table,
         mkResp 200 (JObj [("success", JBool true)]))
      /\ (forall r, In r (fst (EndpointDelete.DELETE table (Some i)))
                    <-> In r table /\ row_id r <> n))
  /\ (forall i, i <> EmptyString ->
      (forall n, parseInt i = Some n -> Endpoint.int4 n = false) ->
      EndpointDelete.DELETE table (Some i)
      = (table, mkResp 500 (error_body "Failed to delete data"))).
Proof.
  split; [reflexivity|]. split; [reflexivity|]. split.
  - intros i n Hp Hn.
    pose proof (delete_parsed table i n Hp) as E. rewrite Hn in E.
    split; [exact E|]. intros r. rewrite E. simpl fst. rewrite filter_In.
    rewrite negb_true_iff, Z.eqb_neq. tauto.
  - intros i Hi Hn.
    destruct (parseInt i) as [n|] eqn:Hp.
    + rewrite (delete_parsed table i n Hp), (Hn n eq_refl). reflexivity.
    + unfold EndpointDelete.DELETE.
      apply String.eqb_neq in Hi. rewrite Hi. simpl negb. cbv iota.
      now rewrite Hp.
Qed.

(** X11: the hook's delete agrees with the DELETE handler: when the
    hook's list mirrors the table, [deleteItem(id)] for an id of the
    [serial] column's range sends [?id=<id>], the handler answers ok,
    and the list still mirrors the table afterwards. *)
Theorem hook_delete_mirrors_table (table : list row) (st : ClientHook.state) (id : Z)
    (Hid : (0 <= id <= 2 ^ 31 - 1)%Z)
    (Hm : ClientHook.data st = map ClientHook.item_of_row table) :
  let (table', resp) := EndpointDelete.DELETE table (Some (EndpointDelete.to_decimal id)) in
  EndpointDelete.ok resp = true
  /\ ClientHook.data (fst (ClientHook.deleteItem st id (EndpointDelete.ok resp)))
     = map ClientHook.item_of_row table'.
Proof.
  destruct (parseInt_to_decimal id ltac:(lia)) as [Hp _].
  rewrite (delete_parsed table _ _ Hp).
  assert (Hr : Endpoint.int4 id = true)
    by (unfold Endpoint.int4; apply andb_true_iff; split; apply Z.leb_le; lia).
  rewrite Hr.
  split; [reflexivity|]. simpl. rewrite Hm. clear.
  induction table as [|r t IH]; [reflexivity|].
  simpl. destruct (row_id r =? id)%Z; simpl; [exact IH|now f_equal].
Qed.

Lemma hook_delete_mirrors_table_witness :
  (0 <= 7 <= 2 ^ 31 - 1)%Z
  /\ ClientHook.data (fst (ClientHook.deleteItem
         (ClientHook.mkState [ClientHook.mkItem 7 JNull; ClientHook.mkItem 8 JNull] false None)
         7 true))
     = [ClientHook.mkItem 8 JNull].
Proof.
  assert (Hid : (0 <= 7 <= 2 ^ 31 - 1)%Z) by lia.
  split; [exact Hid|].
  pose proof (hook_delete_mirrors_table [mkRow 7 JNull; mkRow 8 JNull]
                (ClientHook.mkState [ClientHook.mkItem 7 JNull; ClientHook.mkItem 8 JNull] false None)
                7 Hid eq_refl) as H.
  vm_compute in H. destruct H as [_ H]. exact H.
Defined.

(** ** [list_files] *)

Lemma rev_str_empty (s : string) : ListFiles.rev_str s = EmptyString -> s = EmptyString.
Proof.
  destruct s as [|c s]; [reflexivity|]. simpl. intros H.
  apply (f_equal String.length) in H. rewrite length_append_str in H. simpl in H. lia.
Qed.

Lemma skip_ws_nonempty (s : string) (c : ascii) (r : string) :
  Endpoint.skip_ws s = String c r -> Endpoint.is_ws c = false.
Proof.
  induction s as [|d s IH]; simpl; [discriminate|].
  destruct (Endpoint.is_ws d) eqn:Hd; [exact IH|].
  intros H. injection H as -> _. exact Hd.
Qed.

Lemma skip_ws_keeps_last (a : string) (c : ascii) :
  Endpoint.is_ws c = false -> Endpoint.skip_ws (a ++ String c EmptyString) <> EmptyString.
Proof.
  intros Hc. induction a as [|d a IH]; simpl.
  - rewrite Hc. discriminate.
  - destruct (Endpoint.is_ws d); [exact IH|discriminate].
Qed.

Lemma trim_blank (p : string) :
  (ListFiles.trim p =? EmptyString) = (Endpoint.skip_ws p =? EmptyString).
Proof.
  unfold ListFiles.trim.
  destruct (Endpoint.skip_ws p) as [|c r] eqn:Hs; [reflexivity|].
  pose proof (skip_ws_nonempty _ _ _ Hs) as Hc.
  change (ListFiles.rev_str (String c r)) with (ListFiles.rev_str r ++ String c EmptyString).
  apply String.eqb_neq. intros H. apply rev_str_empty in H.
  exact (skip_ws_keeps_last _ _ Hc H).
Qed.

(** X12: [list_files] refuses exactly the two paths [.git] and
    [node_modules] (so [./.git] or [.git/objects] are listed); a null
    path or one made only of white space lists the working directory
    ["."]; any other path is handed to [readdirSync] as given, without
    trimming. *)
Theorem list_files_paths (readdir : string -> option (list string)) :
  (forall gp, (exists e, ListFiles.execute readdir gp = ListFiles.Refused e)
              <-> gp = Some ".git" \/ gp = Some "node_modules")
  /\ ListFiles.execute readdir None = ListFiles.list_at readdir "."
  /\ (forall p, Endpoint.skip_ws p = EmptyString ->
      ListFiles.execute readdir (Some p) = ListFiles.list_at readdir ".")
  /\ (forall p, Endpoint.skip_ws p <> EmptyString -> p <> ".git" -> p <> "node_modules" ->
      ListFiles.execute readdir (Some p) = ListFiles.list_at readdir p).
Proof.
  assert (Hl : forall t e, ListFiles.list_at readdir t <> ListFiles.Refused e)
    by (intros t e; unfold ListFiles.list_at; destruct (readdir t); discriminate).
  split; [|split; [reflexivity|split]].
  - intros gp. split.
    + intros [e He]. destruct gp as [p|]; [|exfalso; exact (Hl _ _ He)].
      unfold ListFiles.execute in He.
      destruct (p =? ".git") eqn:E1; [left; apply String.eqb_eq in E1; now subst|].
      destruct (p =? "node_modules") eqn:E2; [right; apply String.eqb_eq in E2; now subst|].
      exfalso. exact (Hl _ _ He).
    + intros [-> | ->]; eexists; reflexivity.
  - intros p Hb. unfold ListFiles.execute, ListFiles.target_path.
    rewrite trim_blank, Hb.
    destruct (p =? ".git") eqn:E1;
      [apply String.eqb_eq in E1; subst; discriminate|].
    destruct (p =? "node_modules") eqn:E2;
      [apply String.eqb_eq in E2; subst; discriminate|].
    reflexivity.
  - intros p Hb H1 H2. unfold ListFiles.execute, ListFiles.target_path.
    rewrite trim_blank.
    apply String.eqb_neq in Hb, H1, H2. rewrite Hb, H1, H2. reflexivity.
Qed.

(** ** [integrate_api_with_component] *)

Lemma lines_spec (s : string) :
  (exists p ps rest, Integrate.lines s = p :: ps /\ s = p ++ rest)
  /\ (forall l, In l (Integrate.lines s) -> contains s l).
Proof.
  induction s as [|d r [[p [ps [rest [Hl Hr]]]] IH]].
  - split; [exists EmptyString, [], EmptyString; split; reflexivity|].
    intros l [<-|[]]. exists EmptyString, EmptyString. reflexivity.
  - assert (Hsh : forall l, contains r l -> contains (String d r) l).
    { intros l [a [b ->]]. exists (String d a), b. reflexivity. }
    simpl. rewrite Hl. destruct (Integrate.is_line_terminator d).
    + split; [exists EmptyString, (p :: ps), (String d r); split; reflexivity|].
      intros l [<-|Hin].
      * exists EmptyString, (String d r). reflexivity.
      * apply Hsh, IH. rewrite Hl. exact Hin.
    + split; [exists (String d p), ps, rest; split; [reflexivity|now rewrite Hr]|].
      intros l [<-|Hin].
      * exists EmptyString, rest. simpl. now rewrite Hr.
      * apply Hsh, IH. rewrite Hl. now right.
Qed.

Lemma last_opt_in {A : Type} (l : list A) (x : A) : Integrate.last_opt l = Some x -> In x l.
Proof.
  induction l as [|y l IH]; [discriminate|].
  rewrite last_opt_cons. destruct (Integrate.last_opt l).
  - intros H. right. apply IH. exact H.
  - intros H. injection H as ->. now left.
Qed.

Lemma no_dollar_app (a b : string) : no_dollar (a ++ b) = no_dollar a && no_dollar b.
Proof. induction a as [|c a IH]; simpl; [reflexivity|]. rewrite IH. apply andb_assoc. Qed.

Lemma no_dollar_contains (s x : string) : no_dollar s = true -> contains s x -> no_dollar x = true.
Proof.
  intros Hs [a [b ->]]. rewrite !no_dollar_app in Hs.
  apply andb_true_iff in Hs as [_ Hs]. apply andb_true_iff in Hs as [Hs _]. exact Hs.
Qed.

Lemma last_import_contains (content li : string) :
  Integrate.last_import content = Some li -> contains content li.
Proof.
  unfold Integrate.last_import. intros H. apply last_opt_in, filter_In in H as [H _].
  exact (proj2 (lines_spec content) li H).
Qed.

Lemma integrate_updated_general (content hookName hookImportPath c' : string) :
  Integrate.updated_content content hookName hookImportPath = Some c' ->
  exists pre li post,
    content = pre ++ li ++ post /\ index 0 li content = Some (String.length pre)
    /\ Integrate.last_import content = Some li
    /\ includes content hookImportPath = false
    /\ c' = pre ++ EditFile.get_substitution li pre post
                    (li ++ nl ++ Integrate.hook_import hookName hookImportPath) ++ post.
Proof.
  unfold Integrate.updated_content.
  destruct (Integrate.last_import content) as [li|] eqn:El; [|discriminate].
  destruct (includes content hookImportPath) eqn:Ei; [discriminate|].
  intros H. injection H as <-.
  pose proof (last_import_contains _ _ El) as Hli.
  pose proof (contains_includes _ _ Hli) as Hinc. unfold includes in Hinc.
  destruct (index 0 li content) as [p|] eqn:Hi; [|discriminate].
  change (li ++ String (ascii_of_nat 10) (Integrate.hook_import hookName hookImportPath))
    with (li ++ nl ++ Integrate.hook_import hookName hookImportPath).
  destruct (js_replace_found content li
              (li ++ nl ++ Integrate.hook_import hookName hookImportPath) p Hi)
    as [pre [post [Hs [Hl ->]]]].
  exists pre, li, post. subst p.
  split; [exact Hs|]. split; [exact Hi|]. split; [first [exact El | reflexivity]|].
  split; [first [exact Ei | reflexivity]|]. reflexivity.
Qed.

Lemma integrate_updated_shape (content hookName hookImportPath c' : string)
    (Hd : no_dollar content && no_dollar hookName && no_dollar hookImportPath = true) :
  Integrate.updated_content content hookName hookImportPath = Some c' ->
  exists pre li post,
    content = pre ++ li ++ post /\ Integrate.last_import content = Some li
    /\ c' = pre ++ li ++ nl ++ Integrate.hook_import hookName hookImportPath ++ post.
Proof.
  apply andb_true_iff in Hd as [Hd Hp]. apply andb_true_iff in Hd as [Hc Hn].
  intros Eu.
  destruct (integrate_updated_general _ _ _ _ Eu) as [pre [li [post [Hs [_ [El [_ ->]]]]]]].
  pose proof (last_import_contains _ _ El) as Hli.
  exists pre, li, post. split; [exact Hs|]. split; [exact El|].
  rewrite get_substitution_no_dollar; [now rewrite !append_assoc_str|].
  unfold Integrate.hook_import. rewrite !no_dollar_app.
  rewrite (no_dollar_contains _ _ Hc Hli), Hn, Hp. reflexivity.
Qed.

(** X13: [integrate_api_with_component] leaves the component as it is
    when it has no import line or already contains [hookImportPath];
    otherwise it puts a newline and [import { hookName } from
    'hookImportPath';] right after the first occurrence of the text of
    the last import line (the replacement going through the [$]
    patterns of [String.prototype.replace], verbatim when it has none);
    and running it a second time with the same arguments changes
    nothing (for texts with no [$]). *)
Theorem integrate_inserts_import_once (fs : fsys)
    (componentPath hookName dataProperty hookImportPath content : string)
    (Hf : file_at fs componentPath = Some content)
    (Hw : write_error fs componentPath = None) :
  let fs1 := fst (Integrate.execute fs componentPath hookName dataProperty hookImportPath) in
  ((Integrate.last_import content = None \/ includes content hookImportPath = true)
   /\ file_at fs1 componentPath = Some content
   \/ exists pre li post,
        content = pre ++ li ++ post /\ index 0 li content = Some (String.length pre)
        /\ Integrate.last_import content = Some li
        /\ includes content hookImportPath = false
        /\ file_at fs1 componentPath
           = Some (pre ++ EditFile.get_substitution li pre post
                            (li ++ nl ++ Integrate.hook_import hookName hookImportPath) ++ post)
        /\ (no_dollar_pattern (li ++ nl ++ Integrate.hook_import hookName hookImportPath) = true ->
            file_at fs1 componentPath
            = Some (pre ++ li ++ nl ++ Integrate.hook_import hookName hookImportPath ++ post)))
  /\ (no_dollar content && no_dollar hookName && no_dollar hookImportPath = true ->
      file_at (fst (Integrate.execute fs1 componentPath hookName dataProperty hookImportPath))
              componentPath
      = file_at fs1 componentPath).
Proof.
  intros fs1. subst fs1.
  destruct (Integrate.updated_content content hookName hookImportPath) as [c'|] eqn:Eu.
  - assert (E1 : Integrate.execute fs componentPath hookName dataProperty hookImportPath
                 = (write fs componentPath c', Integrate.Integrated componentPath hookName))
      by (unfold Integrate.execute; now rewrite Hf, Eu, Hw).
    rewrite E1. cbn [fst]. rewrite write_read. split.
    + right.
      destruct (integrate_updated_general _ _ _ _ Eu)
        as [pre [li [post [Hs [Hi [El [Hn Hc']]]]]]].
      exists pre, li, post. split; [exact Hs|]. split; [exact Hi|]. split; [exact El|].
      split; [exact Hn|]. split; [now rewrite Hc'|].
      intros Hd. rewrite Hc', get_substitution_no_pattern by exact Hd.
      now rewrite !append_assoc_str.
    + intros Hd.
      destruct (integrate_updated_shape _ _ _ _ Hd Eu) as [pre [li [post [Hs [El Hc']]]]].
      unfold Integrate.execute. rewrite write_read.
      assert (Hin : includes c' hookImportPath = true).
      { apply contains_includes. rewrite Hc'.
        exists (pre ++ li ++ nl ++ "import { " ++ hookName ++ " } from '"), ("';" ++ post).
        unfold Integrate.hook_import. now rewrite !append_assoc_str. }
      unfold Integrate.updated_content. rewrite Hin.
      destruct (Integrate.last_import c'); cbn [negb fst]; apply write_read.
  - assert (E1 : Integrate.execute fs componentPath hookName dataProperty hookImportPath
                 = (fs, Integrate.Integrated componentPath hookName))
      by (unfold Integrate.execute; now rewrite Hf, Eu).
    rewrite E1. cbn [fst]. split; [|intros _; rewrite E1; reflexivity].
    left. split; [|exact Hf].
    unfold Integrate.updated_content in Eu.
    destruct (Integrate.last_import content); [|now left].
    right. destruct (includes content hookImportPath); [reflexivity|discriminate].
Qed.

Definition sample_component : string :=
  "import React from 'react';" ++ nl ++ "export default function A() {}".

Lemma integrate_inserts_import_once_witness :
  file_at (fst (Integrate.execute
                  (write FS.empty "A.tsx" sample_component)
                  "A.tsx" "useAlbums" "albums" "@/hooks/usealbums")) "A.tsx"
  = Some ("import React from 'react';" ++ nl
          ++ "import { useAlbums } from '@/hooks/usealbums';" ++ nl
          ++ "export default function A() {}").
Proof.
  assert (Hf : file_at (write FS.empty "A.tsx" sample_component) "A.tsx" = Some sample_component)
    by reflexivity.
  assert (Hw : write_error (write FS.empty "A.tsx" sample_component) "A.tsx" = None)
    by reflexivity.
  pose proof (integrate_inserts_import_once _ "A.tsx" "useAlbums" "albums" "@/hooks/usealbums"
                _ Hf Hw) as [_ _].
  vm_compute. reflexivity.
Defined.

(** ** [update_component_types] *)

Lemma last_index_aux_contains (sub s : string) (i k : nat) :
  UpdateTypes.last_index_aux sub i s = Some k -> contains s sub.
Proof.
  revert i k. induction s as [|c r IH]; intros i k H.
  - destruct sub as [|x sub']; [now exists EmptyString, EmptyString|discriminate].
  - cbn [UpdateTypes.last_index_aux] in H. destruct (UpdateTypes.last_index_aux sub (S i) r) eqn:Hr.
    + destruct (IH _ _ Hr) as [a [b ->]]. now exists (String c a), b.
    + destruct (prefix sub (String c r)) eqn:Hp; [|discriminate].
      destruct (prefix_app _ _ Hp) as [post Hpost]. now exists EmptyString, post.
Qed.

Lemma updated_types_contains (content typeName typeDefinition c' : string) :
  UpdateTypes.updated_content content typeName typeDefinition = Some c' ->
  contains c' typeDefinition.
Proof.
  unfold UpdateTypes.updated_content. cbv zeta.
  destruct (includes content ("interface " ++ typeName)); [discriminate|].
  set (k := match UpdateTypes.lastIndexOf content "';" with Some p => p + 2 | None => 1 end).
  intros H. injection H as <-.
  exists (substring 0 k content ++ nl ++ nl), (nl ++ substring k (String.length content) content).
  now rewrite !append_assoc_str.
Qed.

(** X14: [update_component_types] leaves a file that already has
    [interface <typeName>] as it is; in a file with no ['];] the
    definition lands after the first character (there is no import end to
    find); and when the definition declares [interface <typeName>], a
    second run with the same arguments changes nothing. *)
Theorem update_types_placement (fs : fsys) (componentPath typeName typeDefinition content : string)
    (Hf : file_at fs componentPath = Some content)
    (Hw : write_error fs componentPath = None) :
  (includes content ("interface " ++ typeName) = true ->
   UpdateTypes.execute fs componentPath typeName typeDefinition
   = (fs, UpdateTypes.AlreadyExists typeName componentPath))
  /\ (forall c r, content = String c r -> includes content "';" = false ->
      includes content ("interface " ++ typeName) = false ->
      file_at (fst (UpdateTypes.execute fs componentPath typeName typeDefinition)) componentPath
      = Some (String c (nl ++ nl ++ typeDefinition ++ nl ++ r)))
  /\ (contains typeDefinition ("interface " ++ typeName) ->
      let fs1 := fst (UpdateTypes.execute fs componentPath typeName typeDefinition) in
      file_at (fst (UpdateTypes.execute fs1 componentPath typeName typeDefinition)) componentPath
      = file_at fs1 componentPath).
Proof.
  split; [|split].
  - intros Hi. unfold UpdateTypes.execute, UpdateTypes.updated_content.
    now rewrite Hf, Hi.
  - intros c r -> Hq Hi. unfold UpdateTypes.execute, UpdateTypes.updated_content.
    rewrite Hf, Hi.
    destruct (UpdateTypes.lastIndexOf (String c r) "';") eqn:El.
    + exfalso. apply last_index_aux_contains, contains_includes in El. congruence.
    + rewrite Hw. simpl fst. rewrite write_read. f_equal.
      change (substring 0 1 (String c r)) with (String c (substring 0 0 r)).
      cbn [String.length substring].
      rewrite (substring_all (S (String.length r)) r) by lia.
      destruct r; reflexivity.
  - intros Hdef fs1. subst fs1.
    destruct (UpdateTypes.updated_content content typeName typeDefinition) as [c'|] eqn:Eu.
    + assert (E1 : UpdateTypes.execute fs componentPath typeName typeDefinition
                   = (write fs componentPath c', UpdateTypes.Updated componentPath typeName))
        by (unfold UpdateTypes.execute; now rewrite Hf, Eu, Hw).
      rewrite E1. cbn [fst]. rewrite write_read.
      assert (Hin : includes c' ("interface " ++ typeName) = true).
      { apply contains_includes. apply (contains_trans _ typeDefinition); [|exact Hdef].
        exact (updated_types_contains _ _ _ _ Eu). }
      unfold UpdateTypes.execute. rewrite write_read.
      unfold UpdateTypes.updated_content at 1. rewrite Hin. cbn [fst]. apply write_read.
    + assert (E1 : UpdateTypes.execute fs componentPath typeName typeDefinition
                   = (fs, UpdateTypes.AlreadyExists typeName componentPath))
        by (unfold UpdateTypes.execute; now rewrite Hf, Eu).
      rewrite E1. cbn [fst]. rewrite E1. reflexivity.
Qed.

Lemma update_types_placement_witness :
  file_at (fst (UpdateTypes.execute (write FS.empty "A.tsx" "xyz") "A.tsx" "T" "interface T {}"))
    "A.tsx"
  = Some ("x" ++ nl ++ nl ++ "interface T {}" ++ nl ++ "yz").
Proof.
  assert (Hf : file_at (write FS.empty "A.tsx" "xyz") "A.tsx" = Some "xyz") by reflexivity.
  assert (Hw : write_error (write FS.empty "A.tsx" "xyz") "A.tsx" = None) by reflexivity.
  exact (proj1 (proj2 (update_types_placement _ "A.tsx" "T" "interface T {}" "xyz" Hf Hw))
           "x"%char "yz" eq_refl eq_refl eq_refl).
Defined.

(** ** [analyze_component_data_usage] *)

Lemma split_length (c : ascii) (s : string) :
  List.length (split c s) = S (DataUsage.count_char c s).
Proof.
  induction s as [|d r IH]; [reflexivity|].
  simpl. destruct (Ascii.eqb d c); simpl.
  - now rewrite IH.
  - destruct (split c r); simpl in *; [discriminate|exact IH].
Qed.

(** X15: [linesOfCode] is one more than the number of newline
    characters of the component: an empty file counts one line, and a
    final newline counts one more line. *)
Theorem data_usage_lines_of_code (fs : fsys) (componentPath content : string) :
  file_at fs componentPath = Some content ->
  exists a recs,
    DataUsage.execute fs componentPath = DataUsage.Analyzed componentPath a recs
    /\ DataUsage.linesOfCode a = S (DataUsage.count_char (ascii_of_nat 10) content)
    /\ DataUsage.fileSize a = String.length content.
Proof.
  intros Hf. unfold DataUsage.execute. rewrite Hf.
  eexists. eexists. split; [reflexivity|]. split; [|reflexivity].
  apply split_length.
Qed.

Lemma data_usage_lines_of_code_witness :
  exists a recs,
    DataUsage.execute (write FS.empty "A.tsx" ("a" ++ nl)) "A.tsx"
    = DataUsage.Analyzed "A.tsx" a recs /\ DataUsage.linesOfCode a = 2.
Proof.
  assert (Hf : file_at (write FS.empty "A.tsx" ("a" ++ nl)) "A.tsx" = Some ("a" ++ nl))
    by (vm_compute; reflexivity).
  destruct (data_usage_lines_of_code (write FS.empty "A.tsx" ("a" ++ nl)) "A.tsx" ("a" ++ nl)
              Hf) as [a [recs [H1 [H2 _]]]].
  exists a, recs. split; [exact H1|]. rewrite H2. vm_compute. reflexivity.
Defined.
